(** * Password-Manager: the password generator and the credential store

    A shallow embedding of [password.py] (class [PasswordGenerator]) and of
    the two store operations of [main.py] ([save] and [find_password]),
    followed by the properties the specification states about them.

    Conventions of the embedding.
    - Python code that draws random numbers, reads widgets or touches the
      file is written in a state-and-exception monad [M St]: a computation
      takes the state, and returns either a value or the exception it
      raised, together with the state it leaves.
    - Python [str] values are [string]s.  The model is exact for ASCII
      text: a character code above 127 stands for no Python character, and
      what is proved of the case mappings ([str.title], [str.lower]) is
      stated for ASCII strings ([ascii_text]) only.
    - [random], [json], [tkinter.messagebox] and the file are libraries and
      devices, modelled by their contracts; what each model keeps is said
      at its definition. *)

From Stdlib Require Import Ascii.
From stdpp Require Import base list strings gmap.

(** ** Exceptions and the monad *)

(** The built-in exceptions the two modules can meet. *)
Inductive exn : Set :=
  | IndexError
  | ValueError
  | KeyError
  | TypeError
  | AttributeError
  | FileNotFoundError
  | JSONDecodeError
  | UnicodeDecodeError
  | RecursionError.

Inductive res (A : Type) : Type :=
  | Ok (a : A)
  | Raise (e : exn).
Arguments Ok {A} a.
Arguments Raise {A} e.

Definition M (St A : Type) : Type := St → res A * St.

Global Instance M_ret {St} : MRet (M St) := λ A a s, (Ok a, s).

Global Instance M_bind {St} : MBind (M St) := λ A B k m s,
  match m s with
  | (Ok a, s') => k a s'
  | (Raise e, s') => (Raise e, s')
  end.

Definition raise {St A} (e : exn) : M St A := λ s, (Raise e, s).

(** A pure step that may raise. *)
Definition lift {St A} (r : res A) : M St A := λ s, (r, s).

(** [try: m  except E: h  else: k], for the exceptions [handles] accepts:
    [h] and [k] run outside the handler. *)
Definition try_except_else {St A B} (m : M St A) (handles : exn → bool)
    (h : M St B) (k : A → M St B) : M St B :=
  λ s, match m s with
       | (Ok a, s') => k a s'
       | (Raise e, s') => if handles e then h s' else (Raise e, s')
       end.

(** [try: m  except E: h]. *)
Definition try_except {St A} (m : M St A) (handles : exn → bool) (h : M St A)
  : M St A :=
  try_except_else m handles h mret.

(** [for a in l: b = f b a], the loop variable [b] threaded through. *)
Fixpoint for_each {St A B} (f : B → A → M St B) (b : B) (l : list A) : M St B :=
  match l with
  | [] => mret b
  | a :: l' => b' ← f b a; for_each f b' l'
  end.

(** [m] run from [s] returns normally, with a value and a final state that
    satisfy [Q]. *)
Definition returns {St A} (m : M St A) (s : St) (Q : A → St → Prop) : Prop :=
  match m s with
  | (Ok a, s') => Q a s'
  | (Raise _, _) => False
  end.

(** ** [password.py] *)

Module Password.

(** *** The part of [random] the generator uses

    The generator of the [random] module is a tape of naturals and a
    cursor: each call of [_randbelow n] consumes one cell and reduces it
    below [n] ([0] when [n] is [0]).  Every sequence of draws the real
    generator can make is the behaviour of some tape. *)
Record rng : Type := { tape : nat → nat; cursor : nat }.

Definition _randbelow (n : nat) : M rng nat :=
  λ g, (Ok (if decide (n = 0) then 0 else tape g (cursor g) `mod` n),
        {| tape := tape g; cursor := S (cursor g) |}).

(** [random.randint(a, b)]: [a + _randbelow(b + 1 - a)], [ValueError] on an
    empty range. *)
Definition randint (a b : nat) : M rng nat :=
  if decide (a ≤ b) then r ← _randbelow (b + 1 - a); mret (a + r)
  else raise ValueError.

(** [random.choice(seq)]. *)
Definition choice {A} (seq : list A) : M rng A :=
  if decide (length seq = 0) then raise IndexError
  else i ← _randbelow (length seq);
       match seq !! i with
       | Some a => mret a
       | None => raise IndexError
       end.

(** [x[i], x[j] = x[j], x[i]]: both reads, then the store at [i], then the
    store at [j]. *)
Definition swap {A} (x : list A) (i j : nat) : res (list A) :=
  match x !! j, x !! i with
  | Some xj, Some xi => Ok (<[j:=xi]> (<[i:=xj]> x))
  | _, _ => Raise IndexError
  end.

(** [random.shuffle(x)]:
    [for i in reversed(range(1, len(x))): j = randbelow(i + 1); swap]. *)
Definition shuffle {A} (x : list A) : M rng (list A) :=
  for_each (λ x i, j ← _randbelow (i + 1); lift (swap x i j))
           x (reverse (seq 1 (length x - 1))).

(** *** [PasswordGenerator.__init__] *)

Definition letters : list ascii :=
  ["a"; "b"; "c"; "d"; "e"; "f"; "g"; "h"; "i"; "j"; "k";
   "l"; "m"; "n"; "o"; "p"; "q"; "r"; "s"; "t"; "u"; "v"; "w"; "x"; "y"; "z";
   "A"; "B"; "C"; "D"; "E"; "F"; "G"; "H"; "I"; "J"; "K";
   "L"; "M"; "N"; "O"; "P"; "Q"; "R"; "S"; "T"; "U"; "V"; "W"; "X"; "Y"; "Z"]%char.

Definition numbers : list ascii :=
  ["0"; "1"; "2"; "3"; "4"; "5"; "6"; "7"; "8"; "9"]%char.

Definition symbols : list ascii :=
  ["!"; "#"; "$"; "%"; "&"; "("; ")"; "*"; "+"]%char.

(** *** [PasswordGenerator.generate] *)

(** [for _ in range(n): password_list.append(random.choice(pool))]. *)
Definition append_choices (pool : list ascii) (n : nat)
    (password_list : list ascii) : M rng (list ascii) :=
  for_each (λ pl _, c ← choice pool; mret (pl ++ [c]))
           password_list (seq 0 n).

Definition generate : M rng string :=
  nr_letter ← randint 8 10;
  nr_symbols ← randint 2 5;
  nr_numbers ← randint 2 5;
  let password_list := [] in
  password_list ← append_choices letters nr_letter password_list;
  password_list ← append_choices symbols nr_symbols password_list;
  password_list ← append_choices numbers nr_numbers password_list;
  password_list ← shuffle password_list;
  let password_str := String.string_of_list_ascii password_list in
  mret password_str.

(** The pools as the specification names them: the ASCII letters of both
    cases and the decimal digits, by character code. *)
Definition ascii_letter (c : ascii) : bool :=
  ((65 <=? nat_of_ascii c) && (nat_of_ascii c <=? 90))
  || ((97 <=? nat_of_ascii c) && (nat_of_ascii c <=? 122)).

Definition decimal_digit (c : ascii) : bool :=
  (48 <=? nat_of_ascii c) && (nat_of_ascii c <=? 57).

(** How many characters of [s] come from [pool]. *)
Definition count_from (pool : list ascii) (s : string) : nat :=
  length (filter (λ c, c ∈ pool) (String.list_ascii_of_string s)).

End Password.

(** ** [main.py]: the credential store *)

Module Store.

(** *** Strings *)

Definition is_upper (c : ascii) : bool :=
  (65 <=? nat_of_ascii c) && (nat_of_ascii c <=? 90).

Definition is_lower (c : ascii) : bool :=
  (97 <=? nat_of_ascii c) && (nat_of_ascii c <=? 122).

(** A cased character: a letter. *)
Definition is_cased (c : ascii) : bool := is_upper c || is_lower c.

Definition upper (c : ascii) : ascii :=
  if is_lower c then ascii_of_nat (nat_of_ascii c - 32) else c.

Definition lower (c : ascii) : ascii :=
  if is_upper c then ascii_of_nat (nat_of_ascii c + 32) else c.

(** [str.isspace] on one character: tab to carriage return, the four
    separators 28 to 31, and the space. *)
Definition is_space (c : ascii) : bool :=
  ((9 <=? nat_of_ascii c) && (nat_of_ascii c <=? 13))
  || ((28 <=? nat_of_ascii c) && (nat_of_ascii c <=? 32)).

(** [str.title()], as the interpreter computes it: one pass that
    title-cases a character when the character before it is not cased and
    lower-cases it otherwise.  The case tests and mappings are those of
    ASCII, so this is [str.title] on ASCII strings ([ascii_text]); what is
    proved of its values is stated for such strings. *)
Fixpoint title_from (previous_is_cased : bool) (s : string) : string :=
  match s with
  | EmptyString => EmptyString
  | String c s' =>
      String (if previous_is_cased then lower c else upper c)
             (title_from (is_cased c) s')
  end.

Definition title (s : string) : string := title_from false s.

(** Title case in the words of the specification: words are separated by
    whitespace, the first character of a word is capitalized and the rest
    of the word is lower-cased.  Used only to compare with [title]. *)
Fixpoint spec_title_from (at_word_start : bool) (s : string) : string :=
  match s with
  | EmptyString => EmptyString
  | String c s' =>
      String (if at_word_start then upper c else lower c)
             (spec_title_from (is_space c) s')
  end.

Definition spec_title (s : string) : string := spec_title_from true s.

(** [sub in s] on two strings. *)
Fixpoint str_in (sub s : string) : bool :=
  String.prefix sub s
  || match s with
     | EmptyString => false
     | String _ s' => str_in sub s'
     end.

(** *** What [json.load] returns

    A Python [dict] loaded from JSON has string keys, one value per key;
    the order of its keys plays no part in [save] and [find_password]. *)
#[warnings="-register-all"]
Inductive json : Type :=
  | JNull
  | JBool (b : bool)
  | JInt (n : Z)
  | JFloat (literal : string)
  | JStr (s : string)
  | JArr (items : list json)
  | JObj (members : gmap string json).

(** [x in data], [x] a string. *)
Definition py_in (x : string) (data : json) : res bool :=
  match data with
  | JObj m => Ok (bool_decide (is_Some (m !! x)))
  | JArr l =>
      Ok (existsb (λ v, match v with
                        | JStr s => bool_decide (s = x)
                        | _ => false
                        end) l)
  | JStr s => Ok (str_in x s)
  | _ => Raise TypeError
  end.

(** [data[k]], [k] a string. *)
Definition getitem (data : json) (k : string) : res json :=
  match data with
  | JObj m => match m !! k with
              | Some v => Ok v
              | None => Raise KeyError
              end
  | _ => Raise TypeError
  end.

(** [data.update(new_data)]. *)
Definition update (data : json) (new_data : gmap string json) : res json :=
  match data with
  | JObj m => Ok (JObj (new_data ∪ m))
  | _ => Raise AttributeError
  end.

(** *** The file, the form and the dialogs *)

(** The other ways reading the file can fail: its bytes are not UTF-8
    ([UnicodeDecodeError], raised by the read), it holds an integer of more
    digits than the interpreter converts ([ValueError]), or it nests deeper
    than the decoder can follow ([RecursionError]). *)
Inductive read_failure : Set :=
  | Not_utf8
  | Integer_too_long
  | Nested_too_deep.

Definition read_exn (why : read_failure) : exn :=
  match why with
  | Not_utf8 => UnicodeDecodeError
  | Integer_too_long => ValueError
  | Nested_too_deep => RecursionError
  end.

(** The content of [details_data.json], by what opening it with
    [encoding="utf-8"] and [json.load] make of it: text the parser rejects
    with [JSONDecodeError], the document it returns, or content on which
    the read or the decoder fails otherwise.  [json.dump] writes a text
    that loads back to the value dumped.  Failures of the operating system
    (no permission, a directory in the place of the file) are outside the
    model. *)
Inductive file : Type :=
  | Malformed (text : string)
  | Document (v : json)
  | Unreadable (content : string) (why : read_failure).

(** A call of [messagebox.showinfo].  [Credential] is the call of
    [find_password] that shows a record:
    [showinfo(title=website, message=f"Email:{email}\nPassword: {password}")],
    kept with the two values it prints. *)
Inductive dialog : Type :=
  | Info (title message : string)
  | Credential (website : string) (email password : json).

Record world : Type := {
  website_text_field : string;
  email_text_field : string;
  password_text_field : string;
  (** [details_data.json]; [None] when there is no such file *)
  details_data : option file;
  (** the dialogs shown so far, oldest first *)
  shown : list dialog;
}.

Definition gets {A} (f : world → A) : M world A := λ w, (Ok (f w), w).

Definition showinfo (d : dialog) : M world unit :=
  λ w, (Ok tt, {| website_text_field := website_text_field w;
                  email_text_field := email_text_field w;
                  password_text_field := password_text_field w;
                  details_data := details_data w;
                  shown := shown w ++ [d] |}).

(** [with open("details_data.json", mode="r") as f: json.load(f)]. *)
Definition load : M world json :=
  λ w, match details_data w with
       | None => (Raise FileNotFoundError, w)
       | Some (Malformed _) => (Raise JSONDecodeError, w)
       | Some (Document v) => (Ok v, w)
       | Some (Unreadable _ why) => (Raise (read_exn why), w)
       end.

(** [with open("details_data.json", mode="w") as f:
    json.dump(data, f, indent=4)]. *)
Definition dump (data : json) : M world unit :=
  λ w, (Ok tt, {| website_text_field := website_text_field w;
                  email_text_field := email_text_field w;
                  password_text_field := password_text_field w;
                  details_data := Some (Document data);
                  shown := shown w |}).

(** [entry.delete(0, tk.END)] on each of the three fields. *)
Definition clear_website : M world unit :=
  λ w, (Ok tt, {| website_text_field := "";
                  email_text_field := email_text_field w;
                  password_text_field := password_text_field w;
                  details_data := details_data w;
                  shown := shown w |}).

Definition clear_email : M world unit :=
  λ w, (Ok tt, {| website_text_field := website_text_field w;
                  email_text_field := "";
                  password_text_field := password_text_field w;
                  details_data := details_data w;
                  shown := shown w |}).

Definition clear_password : M world unit :=
  λ w, (Ok tt, {| website_text_field := website_text_field w;
                  email_text_field := email_text_field w;
                  password_text_field := "";
                  details_data := details_data w;
                  shown := shown w |}).

(** The four messages, under the names the specification gives them. *)
Definition EmptyField : dialog :=
  Info "Oops" "Please make sure you haven't left any field empty".

Definition InvalidEmail : dialog :=
  Info "Invalid Email" "Please enter a valid email address".

Definition StoreMissing : dialog :=
  Info "Error"
       ("No Data File Found" +:+ String "010"%char "Try after adding data.").

Definition EntryNotFound (website : string) : dialog :=
  Info "Error" ("No details found for " +:+ website).

(** The record [{"email": email, "password": password}]. *)
Definition record (email password : string) : json :=
  JObj {[ "email" := JStr email; "password" := JStr password ]}.

(** *** [save] *)

Definition save : M world unit :=
  website ← gets website_text_field;
  email ← gets email_text_field;
  password ← gets password_text_field;
  let new_data : gmap string json :=
    {[ title website := record email password ]} in
  if (String.length website =? 0) || (String.length password =? 0)
     || (String.length email =? 0)
  then showinfo EmptyField
  else if negb (str_in "@" email) || negb (str_in "." email)
  then showinfo InvalidEmail
  else
    data ← try_except load
             (λ e, match e with
                   | FileNotFoundError | JSONDecodeError => true
                   | _ => false
                   end)
             (mret (JObj ∅));
    data ← lift (update data new_data);
    dump data;;
    clear_website;;
    clear_email;;
    clear_password.

(** *** [find_password] *)

Definition find_password : M world unit :=
  website ← gets (λ w, title (website_text_field w));
  try_except_else load
    (λ e, match e with FileNotFoundError => true | _ => false end)
    (showinfo StoreMissing)
    (λ data,
       found ← lift (py_in website data);
       if found : bool then
         entry ← lift (getitem data website);
         email ← lift (getitem entry "email");
         entry ← lift (getitem data website);
         password ← lift (getitem entry "password");
         showinfo (Credential website email password)
       else showinfo (EntryNotFound website)).

(** *** The store as the specification describes it *)

(** A credential record: exactly the two string fields. *)
Definition is_credential (v : json) : Prop :=
  ∃ email password, v = record email password.

(** A store: a mapping from website to credential record. *)
Definition is_store (v : json) : Prop :=
  ∃ m, v = JObj m ∧ map_Forall (λ _ r, is_credential r) m.

(** The invariant of the data model: the file, if present, is text
    ([Unreadable] content is none), and if it parses it holds a store. *)
Definition store_invariant (w : world) : Prop :=
  match details_data w with
  | Some (Document v) => is_store v
  | Some (Unreadable _ _) => False
  | _ => True
  end.

(** The mapping [save] starts from: the one in the file, or the empty one
    when there is no file or no parseable one. *)
Definition prior_store (w : world) : gmap string json :=
  match details_data w with
  | Some (Document (JObj m)) => m
  | _ => ∅
  end.

(** [c] occurs in [s]. *)
Definition has_char (c : ascii) (s : string) : Prop :=
  c ∈ String.list_ascii_of_string s.

Global Instance has_char_dec c s : Decision (has_char c s) :=
  decide (c ∈ String.list_ascii_of_string s).

(** The input passes validation: no field is empty and the email contains
    both marks. *)
Definition valid_input (w : world) : Prop :=
  website_text_field w ≠ "" ∧ email_text_field w ≠ ""
  ∧ password_text_field w ≠ ""
  ∧ has_char "@" (email_text_field w) ∧ has_char "." (email_text_field w).

Global Instance valid_input_dec w : Decision (valid_input w) :=
  decide (website_text_field w ≠ "" ∧ email_text_field w ≠ ""
          ∧ password_text_field w ≠ ""
          ∧ has_char "@" (email_text_field w)
          ∧ has_char "." (email_text_field w)).

(** The world a completed [save] leaves: the mapping [m] in the file, the
    three fields cleared, no new dialog. *)
Definition written (m : gmap string json) (w : world) : world :=
  {| website_text_field := "";
     email_text_field := "";
     password_text_field := "";
     details_data := Some (Document (JObj m));
     shown := shown w |}.

(** [save] ran to its end from [w] to [w'] and showed no message: the
    entry was accepted and written. *)
Definition save_succeeds (w w' : world) : Prop :=
  save w = (Ok tt, w') ∧ shown w' = shown w.

(** The same world, the user having typed [website] into the first field. *)
Definition type_website (website : string) (w : world) : world :=
  {| website_text_field := website;
     email_text_field := email_text_field w;
     password_text_field := password_text_field w;
     details_data := details_data w;
     shown := shown w |}.

(** The same world after one more dialog. *)
Definition after_dialog (d : dialog) (w : world) : world :=
  {| website_text_field := website_text_field w;
     email_text_field := email_text_field w;
     password_text_field := password_text_field w;
     details_data := details_data w;
     shown := shown w ++ [d] |}.

(** The form filled in, before any dialog, next to a given file. *)
Definition form (website email password : string) (f : option file) : world :=
  {| website_text_field := website;
     email_text_field := email;
     password_text_field := password;
     details_data := f;
     shown := [] |}.

(** A file that is not UTF-8: the single byte 255. *)
Definition not_utf8_file : file := Unreadable (String "255"%char "") Not_utf8.

(** A store with two entries, for the examples. *)
Definition two_sites : gmap string json :=
  {[ "X" := record "a@b.com" "pw1"; "Shop" := record "c@d.org" "pw9" ]}.

(** [find_password] shows the record stored under the normalized key. *)
Definition find_succeeds (w : world) : Prop :=
  ∃ email password,
    find_password w
    = (Ok tt, after_dialog (Credential (title (website_text_field w))
                                       email password) w).

(** Position [i] of [s] starts a run of letters: it is the first position,
    or the character before it is not a letter. *)
Definition starts_word (s : string) (i : nat) : bool :=
  match i with
  | 0 => true
  | S j => match String.get j s with
           | Some p => negb (is_cased p)
           | None => true
           end
  end.

(** Every character of [s] is a letter or whitespace. *)
Definition plain_words (s : string) : Prop :=
  Forall (λ c, is_cased c = true ∨ is_space c = true)
         (String.list_ascii_of_string s).

(** [s] is ASCII text: every character code is below 128. *)
Definition ascii_text (s : string) : Prop :=
  Forall (λ c, nat_of_ascii c < 128) (String.list_ascii_of_string s).

(** Every character of [s] is whitespace. *)
Definition whitespace_only (s : string) : Prop :=
  Forall (λ c, is_space c = true) (String.list_ascii_of_string s).

End Store.

(** ** [main.py]: the generator button and the window *)

Module App.
Import Password Store.

(** [entry.insert(index, s)] on the text of an entry: [s] goes in before
    the character at [index], at the end when [index] is past it. *)
Definition entry_insert (index : nat) (s text : string) : string :=
  String.substring 0 index text
  +:+ s
  +:+ String.substring index (String.length text - index) text.

(** The user replaces the text of the email or of the password entry
    ([type_website] is the same for the website entry). *)
Definition type_email (email : string) (w : world) : world :=
  {| website_text_field := website_text_field w;
     email_text_field := email;
     password_text_field := password_text_field w;
     details_data := details_data w;
     shown := shown w |}.

Definition type_password (password : string) (w : world) : world :=
  {| website_text_field := website_text_field w;
     email_text_field := email_text_field w;
     password_text_field := password;
     details_data := details_data w;
     shown := shown w |}.

(** All three entries filled in. *)
Definition fill (website email password : string) (w : world) : world :=
  type_password password (type_email email (type_website website w)).

(** [password_text_field.insert(index, s)]. *)
Definition insert_password (index : nat) (s : string) : M world unit :=
  λ w, (Ok tt,
        type_password (entry_insert index s (password_text_field w)) w).

(** The running program: the form with the file and the dialogs, the
    state of [random], and the text on the clipboard ([None] until the
    program puts one there). *)
Record app : Type := {
  ui : world;
  random : rng;
  clipboard : option string;
}.

(** A step on the form, a step of [random], inside the program. *)
Definition on_ui {A} (m : M world A) : M app A :=
  λ a, let (r, w') := m (ui a) in
       (r, {| ui := w'; random := random a; clipboard := clipboard a |}).

Definition on_random {A} (m : M rng A) : M app A :=
  λ a, let (r, g') := m (random a) in
       (r, {| ui := ui a; random := g'; clipboard := clipboard a |}).

(** [pyperclip.copy(text)]. *)
Definition pyperclip_copy (text : string) : M app unit :=
  λ a, (Ok tt, {| ui := ui a; random := random a; clipboard := Some text |}).

(** *** [password_generator_for_entry] *)

Definition password_generator_for_entry : M app unit :=
  password ← on_random generate;
  on_ui clear_password;;
  on_ui (insert_password 0 password);;
  pyperclip_copy password.

(** *** The window

    What the user can do: type into one of the three entries, or press one
    of the three buttons, each bound to its command. *)
Inductive event : Type :=
  | Type_website (text : string)
  | Type_email (text : string)
  | Type_password (text : string)
  | Click_search
  | Click_generate
  | Click_add.

Definition handle (e : event) : M app unit :=
  match e with
  | Type_website text => on_ui (λ w, (Ok tt, type_website text w))
  | Type_email text => on_ui (λ w, (Ok tt, type_email text w))
  | Type_password text => on_ui (λ w, (Ok tt, type_password text w))
  | Click_search => on_ui find_password
  | Click_generate => password_generator_for_entry
  | Click_add => on_ui save
  end.

(** [windows.mainloop()] over the events of a session: each is handled in
    turn; an exception that leaves a command is reported by the toolkit
    and the loop goes on from the state the command left.  The result is
    the exceptions reported, oldest first, and the final state. *)
Fixpoint mainloop (events : list event) (a : app) : list exn * app :=
  match events with
  | [] => ([], a)
  | e :: events' =>
      let (r, a') := handle e a in
      let (reported, a'') := mainloop events' a' in
      (match r with
       | Ok _ => reported
       | Raise x => x :: reported
       end, a'')
  end.

(** *** Words for the statements *)

(** [str.lower()], on ASCII strings. *)
Fixpoint lower_str (s : string) : string :=
  match s with
  | EmptyString => EmptyString
  | String c s' => String (lower c) (lower_str s')
  end.

(** [isinstance(v, dict)]. *)
Definition is_dict (v : json) : bool :=
  match v with
  | JObj _ => true
  | _ => false
  end.

(** Reading the file fails with [e]: the parser rejects its text, or the
    read or the decoder fails otherwise. *)
Definition fails_to_load (w : world) (e : exn) : Prop :=
  (e = JSONDecodeError ∧ ∃ text, details_data w = Some (Malformed text))
  ∨ (∃ content why,
       details_data w = Some (Unreadable content why) ∧ e = read_exn why).

(** The file is absent or holds a store: the states a first run and the
    program's own writes produce. *)
Definition healthy (w : world) : Prop :=
  match details_data w with
  | None => True
  | Some (Document v) => is_store v
  | Some (Malformed _) => False
  | Some (Unreadable _ _) => False
  end.

(** Every key of the mapping in the file is ASCII and in title case. *)
Definition keys_normalized (w : world) : Prop :=
  ∀ k, is_Some (prior_store w !! k) → ascii_text k ∧ title k = k.

(** The websites the user types are ASCII. *)
Definition ascii_typing (e : event) : Prop :=
  match e with
  | Type_website text => ascii_text text
  | _ => True
  end.

(** The form and the file are the same in two worlds. *)
Definition same_form_and_file (w w' : world) : Prop :=
  website_text_field w' = website_text_field w
  ∧ email_text_field w' = email_text_field w
  ∧ password_text_field w' = password_text_field w
  ∧ details_data w' = details_data w.

(** A program about to start: the form empty, nothing shown, a given file
    and generator. *)
Definition start (f : option file) (g : rng) : app :=
  {| ui := form "" "" "" f; random := g; clipboard := None |}.

(** Two sample states: after one entry was typed in and added on a first
    run, and after the same entry was added twice with two passwords. *)
Definition bank_session : app :=
  (mainloop [Type_website "my bank"; Type_email "a@b.com";
             Type_password "pw"; Click_add]
            (start None {| tape := λ n, n; cursor := 0 |})).2.

Definition saved_twice : world :=
  (save (fill "X" "a@b.com" "pw2" (save (form "x" "a@b.com" "pw1" None)).2)).2.

End App.

(** ** Reasoning about computations *)

Section Returns.
Context {St : Type}.

Lemma returns_ret {A} (a : A) (s : St) (Q : A → St → Prop) :
  Q a s → returns (mret a) s Q.
Proof. done. Qed.

Lemma returns_bind {A B} (m : M St A) (k : A → M St B) s (Q : B → St → Prop) :
  returns m s (λ a s', returns (k a) s' Q) → returns (m ≫= k) s Q.
Proof.
  unfold returns, mbind, M_bind. by destruct (m s) as [[a|e] s'].
Qed.

Lemma returns_mono {A} (m : M St A) s (P Q : A → St → Prop) :
  (∀ a s', P a s' → Q a s') → returns m s P → returns m s Q.
Proof.
  unfold returns. intros HPQ. destruct (m s) as [[a|e] s']; [apply HPQ | done].
Qed.

Lemma returns_lift {A} (r : res A) (a : A) s (Q : A → St → Prop) :
  r = Ok a → Q a s → returns (lift r) s Q.
Proof. by intros ->. Qed.

Lemma returns_eq {A} (m : M St A) s (Q : A → St → Prop) :
  returns m s Q → ∃ a s', m s = (Ok a, s') ∧ Q a s'.
Proof.
  unfold returns. destruct (m s) as [[a|e] s']; [eauto | done].
Qed.

(** A loop whose body keeps [Inv] keeps it to the end, whatever the state
    it starts from. *)
Lemma returns_for_each {A B} (f : B → A → M St B) (Inv : B → Prop)
    (P : A → Prop) (l : list A) :
  (∀ b a s, Inv b → P a → returns (f b a) s (λ b' _, Inv b')) →
  Forall P l →
  ∀ b s, Inv b → returns (for_each f b l) s (λ b' _, Inv b').
Proof.
  intros Hbody. induction 1 as [|a l Ha _ IH]; intros b s Hb; simpl.
  - by apply returns_ret.
  - apply returns_bind. eapply returns_mono; [|by apply Hbody].
    intros b' s' Hb'. by apply IH.
Qed.
End Returns.

Module PasswordFacts.
Import Password.

Lemma randbelow_lt n g : 0 < n → returns (_randbelow n) g (λ r _, r < n).
Proof.
  intros Hn. unfold returns, _randbelow. rewrite decide_False by lia.
  apply Nat.mod_upper_bound. lia.
Qed.

Lemma randint_range a b g :
  a ≤ b → returns (randint a b) g (λ r _, a ≤ r ≤ b).
Proof.
  intros Hab. unfold randint. rewrite decide_True by done.
  apply returns_bind. eapply returns_mono; [|apply randbelow_lt; lia].
  intros r g' Hr. apply returns_ret. simpl in Hr. lia.
Qed.

Lemma choice_elem {A} (pool : list A) g :
  pool ≠ [] → returns (choice pool) g (λ c _, c ∈ pool).
Proof.
  intros Hne. unfold choice.
  assert (0 < length pool) as Hlen by (destruct pool; [done | simpl; lia]).
  rewrite decide_False by lia.
  apply returns_bind. eapply returns_mono; [|by apply randbelow_lt].
  intros i g' Hi. destruct (lookup_lt_is_Some_2 pool i Hi) as [c Hc].
  rewrite Hc. apply returns_ret. by eapply list_elem_of_lookup_2.
Qed.

(** The appending loop adds one character of the pool per round. *)
Lemma append_loop_spec {Ix} (pool : list ascii) (idx : list Ix) acc g :
  pool ≠ [] →
  returns (for_each (λ pl _, c ← choice pool; mret (pl ++ [c])) acc idx) g
    (λ l _, ∃ cs, l = acc ++ cs ∧ length cs = length idx
                  ∧ Forall (λ c, c ∈ pool) cs).
Proof.
  intros Hne. revert acc g.
  induction idx as [|i idx IH]; intros acc g; simpl.
  - apply returns_ret. exists []. by rewrite app_nil_r.
  - apply returns_bind, returns_bind.
    eapply returns_mono; [|by apply choice_elem].
    intros c g' Hc. apply returns_ret.
    eapply returns_mono; [|apply IH].
    intros l _ (cs & -> & Hlen & Hall). exists (c :: cs).
    rewrite <- app_assoc. simpl. split_and!; [done | lia | by constructor].
Qed.

Lemma append_choices_spec pool n acc g :
  pool ≠ [] →
  returns (append_choices pool n acc) g
    (λ l _, ∃ cs, l = acc ++ cs ∧ length cs = n ∧ Forall (λ c, c ∈ pool) cs).
Proof.
  intros Hne. unfold append_choices.
  eapply returns_mono; [|by apply append_loop_spec].
  intros l _ (cs & -> & Hlen & Hall). exists cs.
  by rewrite length_seq in Hlen.
Qed.

Lemma swap_perm {A} (x : list A) i j :
  i < length x → j < length x → ∃ x', swap x i j = Ok x' ∧ x' ≡ₚ x.
Proof.
  intros Hi Hj. unfold swap.
  destruct (lookup_lt_is_Some_2 x i Hi) as [xi Hxi].
  destruct (lookup_lt_is_Some_2 x j Hj) as [xj Hxj].
  rewrite Hxi, Hxj. eexists; split; [done|].
  by apply Permutation_insert_swap.
Qed.

(** [shuffle] never fails and returns a rearrangement of its argument. *)
Lemma shuffle_perm {A} (x : list A) g :
  returns (shuffle x) g (λ x' _, x' ≡ₚ x).
Proof.
  unfold shuffle.
  apply (returns_for_each _ (λ x', x' ≡ₚ x) (λ i, i < length x)); [| |done].
  - intros b i s Hb Hi. apply returns_bind.
    eapply returns_mono; [|apply randbelow_lt; lia].
    intros j s' Hj. simpl in Hb, Hi, Hj.
    destruct (swap_perm b i j) as (b' & Hsw & Hperm).
    { by rewrite Hb. } { rewrite Hb. lia. }
    eapply returns_lift; [done|]. by rewrite Hperm.
  - apply Forall_reverse, Forall_seq. intros j Hj. lia.
Qed.

Lemma length_string_of_list_ascii l :
  String.length (String.string_of_list_ascii l) = length l.
Proof. induction l; simpl; congruence. Qed.

(** Counting in a list of characters that all come from one pool. *)
Lemma count_own (pool cs : list ascii) :
  Forall (λ c, c ∈ pool) cs → length (filter (λ c, c ∈ pool) cs) = length cs.
Proof.
  induction 1 as [|c cs Hc _ IH]; [done|].
  rewrite filter_cons_True by done. simpl. by rewrite IH.
Qed.

Lemma count_other (pool other cs : list ascii) :
  Forall (λ c, c ∉ pool) other →
  Forall (λ c, c ∈ other) cs → length (filter (λ c, c ∈ pool) cs) = 0.
Proof.
  intros Hdisj. induction 1 as [|c cs Hc _ IH]; [done|].
  rewrite filter_cons_False; [done|].
  rewrite Forall_forall in Hdisj. by apply Hdisj.
Qed.

(** The three pools share no character. *)
Lemma pools_disjoint :
  Forall (λ c, c ∉ letters) symbols ∧ Forall (λ c, c ∉ letters) numbers
  ∧ Forall (λ c, c ∉ symbols) letters ∧ Forall (λ c, c ∉ symbols) numbers
  ∧ Forall (λ c, c ∉ numbers) letters ∧ Forall (λ c, c ∉ numbers) symbols.
Proof. split_and!; compute_done. Qed.

Lemma letters_are_ascii_letters c : c ∈ letters ↔ ascii_letter c = true.
Proof.
  assert (bool_decide (c ∈ letters) = ascii_letter c) as <-
    by (by destruct c as [[] [] [] [] [] [] [] []]; vm_compute).
  by rewrite bool_decide_eq_true.
Qed.

Lemma numbers_are_decimal_digits c : c ∈ numbers ↔ decimal_digit c = true.
Proof.
  assert (bool_decide (c ∈ numbers) = decimal_digit c) as <-
    by (by destruct c as [[] [] [] [] [] [] [] []]; vm_compute).
  by rewrite bool_decide_eq_true.
Qed.

(** What [generate] builds: three runs of characters, one per pool, of the
    drawn lengths, rearranged. *)
Lemma generate_returns g :
  returns generate g (λ pw _,
    ∃ ls ss ns pl,
      pw = String.string_of_list_ascii pl ∧ pl ≡ₚ ls ++ ss ++ ns
      ∧ 8 ≤ length ls ≤ 10 ∧ Forall (λ c, c ∈ letters) ls
      ∧ 2 ≤ length ss ≤ 5 ∧ Forall (λ c, c ∈ symbols) ss
      ∧ 2 ≤ length ns ≤ 5 ∧ Forall (λ c, c ∈ numbers) ns).
Proof.
  unfold generate.
  apply returns_bind.
  eapply returns_mono; [|apply (randint_range 8 10); lia].
  intros nl g1 Hnl. apply returns_bind.
  eapply returns_mono; [|apply (randint_range 2 5); lia].
  intros nsy g2 Hnsy. apply returns_bind.
  eapply returns_mono; [|apply (randint_range 2 5); lia].
  intros nn g3 Hnn. simpl in Hnl, Hnsy, Hnn. apply returns_bind.
  eapply returns_mono; [|by apply append_choices_spec].
  intros ? g4 (ls & -> & Hls & Hlsp). apply returns_bind.
  eapply returns_mono; [|by apply append_choices_spec].
  intros ? g5 (ss & -> & Hss & Hssp). apply returns_bind.
  eapply returns_mono; [|by apply append_choices_spec].
  intros ? g6 (ns & -> & Hns & Hnsp). apply returns_bind.
  eapply returns_mono; [|apply shuffle_perm].
  intros pl g7 Hperm. apply returns_ret.
  exists ls, ss, ns, pl. simpl in Hperm. rewrite <- app_assoc in Hperm.
  split_and!; try done; lia.
Qed.

(** One run, on the tape [3, 10, 17, ...]. *)
Example generate_sample :
  (generate {| tape := λ n, n * 7 + 3; cursor := 0 |}).1
  = Ok "F$hv2+5M8aToy&)"%string.
Proof. reflexivity. Qed.

(** C1: every call of [generate], whatever the random draws, returns a
    string of 12 to 20 characters, with at least 8 (and at most 10)
    characters of the letters pool, 2 to 5 of the symbols pool and 2 to 5
    of the digits pool, all of whose characters come from the three pools;
    the pools are the 52 ASCII letters, the 10 decimal digits and the 9
    symbols [! # $ % & ( ) * +]. *)
Theorem generate_shape (g : rng) :
  (∃ pw g',
      generate g = (Ok pw, g')
      ∧ 12 ≤ String.length pw ≤ 20
      ∧ 8 ≤ count_from letters pw ≤ 10
      ∧ 2 ≤ count_from symbols pw ≤ 5
      ∧ 2 ≤ count_from numbers pw ≤ 5
      ∧ Forall (λ c, c ∈ letters ∨ c ∈ numbers ∨ c ∈ symbols)
               (String.list_ascii_of_string pw))
  ∧ (length letters = 52 ∧ NoDup letters
     ∧ ∀ c, c ∈ letters ↔ ascii_letter c = true)
  ∧ (length numbers = 10 ∧ NoDup numbers
     ∧ ∀ c, c ∈ numbers ↔ decimal_digit c = true)
  ∧ symbols = ["!"; "#"; "$"; "%"; "&"; "("; ")"; "*"; "+"]%char.
Proof.
  split; [|split_and!; try done; try compute_done;
           [apply letters_are_ascii_letters | apply numbers_are_decimal_digits]].
  destruct (returns_eq _ _ _ (generate_returns g))
    as (pw & g' & Hrun & ls & ss & ns & pl & -> & Hperm
        & Hls & Hlsp & Hss & Hssp & Hns & Hnsp).
  destruct pools_disjoint as (Hsl & Hnl & Hls' & Hns' & Hln & Hsn).
  exists (String.string_of_list_ascii pl), g'. split; [done|].
  unfold count_from.
  rewrite length_string_of_list_ascii, String.list_ascii_of_string_of_list_ascii.
  rewrite !Hperm, !filter_app, !length_app.
  rewrite (count_own letters ls), (count_own symbols ss),
    (count_own numbers ns) by done.
  rewrite (count_other letters symbols ss), (count_other letters numbers ns),
    (count_other symbols letters ls), (count_other symbols numbers ns),
    (count_other numbers letters ls), (count_other numbers symbols ss) by done.
  split_and!; try lia.
  rewrite !Forall_app. split_and!;
    (eapply Forall_impl; [eassumption|]); simpl; tauto.
Qed.

End PasswordFacts.

Module StoreFacts.
Import Store.

(** *** Strings *)

Lemma length_zero_iff s : (String.length s =? 0) = true ↔ s = "".
Proof. destruct s; simpl; [done|]. split; [lia | done]. Qed.

Lemma length_nonzero s : s ≠ "" → (String.length s =? 0) = false.
Proof.
  intros Hs. apply not_true_is_false. by rewrite length_zero_iff.
Qed.

Lemma prefix_empty s : String.prefix "" s = true.
Proof. by destruct s. Qed.

(** [c in s] for a one-character [c] is membership of the character. *)
Lemma str_in_char c s : str_in (String c "") s = true ↔ has_char c s.
Proof.
  unfold has_char. induction s as [|c' s IH]; simpl.
  - split; [done | by intros ?%elem_of_nil].
  - rewrite orb_true_iff, IH, elem_of_cons, prefix_empty.
    destruct (ascii_dec c c') as [->|Hne]; [tauto|].
    split; [intros [?|?]; [done | by right] | intros [?|?]; [done | by right]].
Qed.

(** *** Title case *)

Lemma space_not_cased c :
  is_space c = true → is_cased c = false ∧ upper c = c ∧ lower c = c.
Proof. by destruct c as [[] [] [] [] [] [] [] []]; vm_compute. Qed.

Lemma title_from_whitespace b s : whitespace_only s → title_from b s = s.
Proof.
  unfold whitespace_only. revert b.
  induction s as [|c s IH]; intros b Hs; [done|].
  simpl in Hs. apply Forall_cons in Hs as [Hc Hs].
  destruct (space_not_cased c Hc) as (Hcased & Hup & Hlow).
  simpl. rewrite Hcased, IH by done. by destruct b; rewrite ?Hup, ?Hlow.
Qed.

Lemma title_whitespace s : whitespace_only s → title s = s.
Proof. apply title_from_whitespace. Qed.

(** *** Worlds *)

Lemma shown_grows (l : list dialog) d : l ++ [d] ≠ l.
Proof.
  intros H. apply (f_equal length) in H. rewrite length_app in H.
  simpl in H. lia.
Qed.

(** *** The three outcomes of [save] *)

Lemma save_empty_field w :
  website_text_field w = "" ∨ email_text_field w = ""
  ∨ password_text_field w = "" →
  save w = (Ok tt, after_dialog EmptyField w).
Proof.
  intros H. unfold save, mbind, M_bind, gets.
  assert ((String.length (website_text_field w) =? 0)
          || (String.length (password_text_field w) =? 0)
          || (String.length (email_text_field w) =? 0) = true) as ->; [|done].
  rewrite !orb_true_iff, !length_zero_iff. tauto.
Qed.

Lemma save_invalid_email w :
  website_text_field w ≠ "" → email_text_field w ≠ "" →
  password_text_field w ≠ "" →
  ¬ (has_char "@" (email_text_field w) ∧ has_char "." (email_text_field w)) →
  save w = (Ok tt, after_dialog InvalidEmail w).
Proof.
  intros Hw He Hp Hbad. unfold save, mbind, M_bind, gets.
  rewrite !length_nonzero by done. simpl.
  assert (negb (str_in "@" (email_text_field w))
          || negb (str_in "." (email_text_field w)) = true) as ->; [|done].
  rewrite orb_true_iff, !negb_true_iff.
  destruct (str_in "@" (email_text_field w)) eqn:Hat; [|by left].
  destruct (str_in "." (email_text_field w)) eqn:Hdot; [|by right].
  apply str_in_char in Hat, Hdot. tauto.
Qed.

(** [save] on valid input: the entry goes into the mapping of the file, or
    into an empty one when there is no file or only a malformed one; a
    document that is not a mapping makes [update] raise, and the failure
    of a read that is not a [JSONDecodeError] goes through the handler. *)
Lemma save_valid w :
  valid_input w →
  save w =
    let key := title (website_text_field w) in
    let r := record (email_text_field w) (password_text_field w) in
    match details_data w with
    | None | Some (Malformed _) => (Ok tt, written {[ key := r ]} w)
    | Some (Document (JObj m)) => (Ok tt, written (<[key := r]> m) w)
    | Some (Document _) => (Raise AttributeError, w)
    | Some (Unreadable _ why) => (Raise (read_exn why), w)
    end.
Proof.
  intros (Hw & He & Hp & Hat & Hdot). unfold save, mbind, M_bind, gets.
  rewrite !length_nonzero by done.
  apply str_in_char in Hat, Hdot. rewrite Hat, Hdot. simpl.
  unfold try_except, try_except_else, load.
  destruct (details_data w) as [[t|v|content why]|] eqn:Hfile; simpl.
  - rewrite (right_id_L ∅ (∪)). reflexivity.
  - destruct v; try reflexivity. simpl.
    rewrite <- insert_union_singleton_l. reflexivity.
  - by destruct why.
  - rewrite (right_id_L ∅ (∪)). reflexivity.
Qed.

(** Input that is not valid gets one of the two messages. *)
Lemma save_rejected w :
  ¬ valid_input w →
  save w = (Ok tt, after_dialog EmptyField w)
  ∨ save w = (Ok tt, after_dialog InvalidEmail w).
Proof.
  unfold valid_input. intros Hbad.
  destruct (decide (website_text_field w = ""));
    [left; apply save_empty_field; tauto|].
  destruct (decide (email_text_field w = ""));
    [left; apply save_empty_field; tauto|].
  destruct (decide (password_text_field w = ""));
    [left; apply save_empty_field; tauto|].
  right. apply save_invalid_email; tauto.
Qed.

(** What a successful [save] was given and what it left. *)
Lemma save_succeeds_inv w w' :
  save_succeeds w w' →
  valid_input w
  ∧ w' = written (<[title (website_text_field w)
                    := record (email_text_field w) (password_text_field w)]>
                  (prior_store w)) w.
Proof.
  intros [Hrun Hshown].
  destruct (decide (website_text_field w = "")) as [Hw|Hw].
  { rewrite save_empty_field in Hrun by tauto.
    injection Hrun as <-. by apply shown_grows in Hshown. }
  destruct (decide (email_text_field w = "")) as [He|He].
  { rewrite save_empty_field in Hrun by tauto.
    injection Hrun as <-. by apply shown_grows in Hshown. }
  destruct (decide (password_text_field w = "")) as [Hp|Hp].
  { rewrite save_empty_field in Hrun by tauto.
    injection Hrun as <-. by apply shown_grows in Hshown. }
  destruct (decide (has_char "@" (email_text_field w))) as [Hat|Hat]; cycle 1.
  { rewrite save_invalid_email in Hrun by tauto.
    injection Hrun as <-. by apply shown_grows in Hshown. }
  destruct (decide (has_char "." (email_text_field w))) as [Hdot|Hdot]; cycle 1.
  { rewrite save_invalid_email in Hrun by tauto.
    injection Hrun as <-. by apply shown_grows in Hshown. }
  assert (valid_input w) as Hvalid by done.
  split; [done|]. rewrite save_valid in Hrun by done. unfold prior_store.
  destruct (details_data w) as [[t|v|content why]|]; simpl in Hrun.
  - injection Hrun as <-. by rewrite insert_empty.
  - destruct v; try done. by injection Hrun as <-.
  - done.
  - injection Hrun as <-. by rewrite insert_empty.
Qed.

(** Under the invariant of the data model, valid input is always saved. *)
Lemma save_valid_store w :
  valid_input w → store_invariant w →
  save_succeeds w
    (written (<[title (website_text_field w)
                := record (email_text_field w) (password_text_field w)]>
              (prior_store w)) w).
Proof.
  intros Hvalid Hinv. split; [|done].
  rewrite save_valid by done. unfold prior_store, store_invariant in *.
  destruct (details_data w) as [[t|v|content why]|]; simpl.
  - by rewrite insert_empty.
  - by destruct Hinv as (m & -> & _).
  - done.
  - by rewrite insert_empty.
Qed.

(** [save] keeps the invariant of the data model, and establishes it when
    it starts from no file or from a malformed one. *)
Lemma save_keeps_invariant w :
  store_invariant w → store_invariant (save w).2.
Proof.
  intros Hinv.
  destruct (decide (valid_input w)) as [Hvalid|Hbad].
  - destruct (save_valid_store w Hvalid Hinv) as [-> _]. simpl.
    exists (<[title (website_text_field w)
              := record (email_text_field w) (password_text_field w)]>
            (prior_store w)). split; [done|].
    apply map_Forall_insert_2; [by eexists _, _|].
    unfold prior_store, store_invariant in *.
    destruct (details_data w) as [[t|v|content why]|];
      [apply map_Forall_empty | | done | apply map_Forall_empty].
    destruct Hinv as (m & -> & Hm). done.
  - by destruct (save_rejected w Hbad) as [-> | ->].
Qed.

(** *** The outcomes of [find_password] *)

Lemma find_no_file w :
  details_data w = None →
  find_password w = (Ok tt, after_dialog StoreMissing w).
Proof.
  intros Hfile. unfold find_password, mbind, M_bind, gets, try_except_else, load.
  by rewrite Hfile.
Qed.

Lemma find_malformed w text :
  details_data w = Some (Malformed text) →
  find_password w = (Raise JSONDecodeError, w).
Proof.
  intros Hfile. unfold find_password, mbind, M_bind, gets, try_except_else, load.
  by rewrite Hfile.
Qed.

Lemma find_unreadable w content why :
  details_data w = Some (Unreadable content why) →
  find_password w = (Raise (read_exn why), w).
Proof.
  intros Hfile. unfold find_password, mbind, M_bind, gets, try_except_else, load.
  rewrite Hfile. by destruct why.
Qed.

Lemma find_absent w m :
  details_data w = Some (Document (JObj m)) →
  m !! title (website_text_field w) = None →
  find_password w
  = (Ok tt, after_dialog (EntryNotFound (title (website_text_field w))) w).
Proof.
  intros Hfile Hkey.
  unfold find_password, mbind, M_bind, gets, try_except_else, load, lift.
  rewrite Hfile. simpl. rewrite Hkey.
  rewrite bool_decide_eq_false_2; [done | by intros [? ?]].
Qed.

Lemma find_present w m r email password :
  details_data w = Some (Document (JObj m)) →
  m !! title (website_text_field w) = Some (JObj r) →
  r !! "email" = Some email → r !! "password" = Some password →
  find_password w
  = (Ok tt, after_dialog (Credential (title (website_text_field w))
                                     email password) w).
Proof.
  intros Hfile Hkey Hemail Hpassword.
  unfold find_password, mbind, M_bind, gets, try_except_else, load, lift.
  rewrite Hfile. simpl. rewrite Hkey.
  rewrite bool_decide_eq_true_2 by done. simpl.
  by rewrite Hemail, Hpassword.
Qed.

Lemma record_email email password :
  match record email password with
  | JObj r => r !! "email" = Some (JStr email)
              ∧ r !! "password" = Some (JStr password)
  | _ => False
  end.
Proof.
  simpl. split.
  - apply lookup_insert_eq.
  - rewrite lookup_insert_ne by done. apply lookup_singleton_eq.
Qed.

Lemma find_record w m email password :
  details_data w = Some (Document (JObj m)) →
  m !! title (website_text_field w) = Some (record email password) →
  find_password w
  = (Ok tt, after_dialog (Credential (title (website_text_field w))
                                     (JStr email) (JStr password)) w).
Proof.
  intros Hfile Hkey. destruct (record_email email password) as [He Hp].
  by eapply find_present.
Qed.

(** *** Validation *)

(** C4: [save] validates in a fixed order.  If any of the three fields is
    empty it stops with the EmptyField message, whatever the email looks
    like; otherwise, if the email lacks an [@] or a [.], it stops with the
    InvalidEmail message; otherwise validation succeeds, no message is
    shown, and the store is updated: the file holds the prior mapping with
    the new record under the normalized key. *)
Theorem save_validation_order (w : world) :
  (website_text_field w = "" ∨ email_text_field w = ""
   ∨ password_text_field w = "" →
   save w = (Ok tt, after_dialog EmptyField w))
  ∧ (website_text_field w ≠ "" → email_text_field w ≠ "" →
     password_text_field w ≠ "" →
     ¬ (has_char "@" (email_text_field w) ∧ has_char "." (email_text_field w)) →
     save w = (Ok tt, after_dialog InvalidEmail w))
  ∧ (website_text_field w ≠ "" → email_text_field w ≠ "" →
     password_text_field w ≠ "" →
     has_char "@" (email_text_field w) → has_char "." (email_text_field w) →
     shown (save w).2 = shown w
     ∧ (store_invariant w →
        save w
        = (Ok tt,
           written (<[title (website_text_field w)
                      := record (email_text_field w) (password_text_field w)]>
                    (prior_store w)) w))).
Proof.
  split_and!.
  - apply save_empty_field.
  - apply save_invalid_email.
  - intros Hw He Hp Hat Hdot. assert (valid_input w) as Hvalid by done. split.
    + rewrite save_valid by done.
      by destruct (details_data w) as [[text|[]|content []]|].
    + intros Hinv. by destruct (save_valid_store w) as [-> _].
Qed.

Lemma save_validation_order_witness :
  save (form "x" "" "pw" None)
  = (Ok tt, after_dialog EmptyField (form "x" "" "pw" None))
  ∧ save (form "" "noatsign" "pw" None)
    = (Ok tt, after_dialog EmptyField (form "" "noatsign" "pw" None))
  ∧ save (form "x" "noatsign.com" "pw" None)
    = (Ok tt, after_dialog InvalidEmail (form "x" "noatsign.com" "pw" None))
  ∧ save (form "x" "a@b.com" "pw" None)
    = (Ok tt, written (<["X" := record "a@b.com" "pw"]> ∅)
                      (form "x" "a@b.com" "pw" None)).
Proof.
  split_and!.
  - apply (proj1 (save_validation_order (form "x" "" "pw" None))).
    right; left; reflexivity.
  - apply (proj1 (save_validation_order (form "" "noatsign" "pw" None))).
    left; reflexivity.
  - apply (proj1 (proj2 (save_validation_order
                           (form "x" "noatsign.com" "pw" None))));
      [discriminate | discriminate | discriminate |].
    intros [Hat _]. apply (bool_decide_pack _) in Hat.
    vm_compute in Hat. exact Hat.
  - refine (proj2 (proj2 (proj2 (save_validation_order
                                   (form "x" "a@b.com" "pw" None)))
                            _ _ _ _ _) I);
      [discriminate | discriminate | discriminate | |]; compute_done.
Defined.

(** C5: a [save] that fails validation shows one of the two messages and
    does nothing else: the file is not created, written or modified. *)
Theorem save_rejects_without_writing (w : world) :
  ¬ valid_input w →
  (save w = (Ok tt, after_dialog EmptyField w)
   ∨ save w = (Ok tt, after_dialog InvalidEmail w))
  ∧ details_data (save w).2 = details_data w.
Proof.
  intros Hrun%save_rejected. split; [done|]. by destruct Hrun as [-> | ->].
Qed.

Lemma save_rejects_without_writing_witness :
  (save (form "x" "" "pw" None)
   = (Ok tt, after_dialog EmptyField (form "x" "" "pw" None))
   ∨ save (form "x" "" "pw" None)
     = (Ok tt, after_dialog InvalidEmail (form "x" "" "pw" None)))
  ∧ details_data (save (form "x" "" "pw" None)).2 = None.
Proof.
  apply (save_rejects_without_writing (form "x" "" "pw" None)).
  intros (_ & He & _). by apply He.
Defined.

(** *** Writing *)

(** C6: a successful [save] rewrites the file with a mapping in which the
    normalized key holds the new record (replacing any record it held) and
    every other key holds exactly what it held before. *)
Theorem save_frame (w w' : world) :
  save_succeeds w w' →
  ∃ m', details_data w' = Some (Document (JObj m'))
        ∧ m' !! title (website_text_field w)
          = Some (record (email_text_field w) (password_text_field w))
        ∧ ∀ k, k ≠ title (website_text_field w) →
               m' !! k = prior_store w !! k.
Proof.
  intros [_ ->]%save_succeeds_inv. eexists. split; [done|]. split.
  - apply lookup_insert_eq.
  - intros k Hk. by apply lookup_insert_ne.
Qed.

(** On valid input, when there is no file or only one the parser rejects
    with [JSONDecodeError], [save] starts from the empty mapping and
    succeeds, leaving a file with exactly the one new entry. *)
Lemma save_self_heals (w : world) :
  valid_input w →
  details_data w = None ∨ (∃ text, details_data w = Some (Malformed text)) →
  let saved :=
    written {[ title (website_text_field w)
               := record (email_text_field w) (password_text_field w) ]} w in
  save w = (Ok tt, saved) ∧ save_succeeds w saved.
Proof.
  intros Hvalid Hfile saved.
  assert (save w = (Ok tt, saved)) as Hrun.
  { rewrite save_valid by done. by destruct Hfile as [-> | [text ->]]. }
  by repeat split.
Qed.

(** C10: only the length of a field is tested, so a website and a password
    made of whitespace pass validation; with an email that has its [@] and
    [.], [save] succeeds and stores the record under the title-cased key,
    which is the whitespace itself. *)
Theorem save_accepts_whitespace (w : world) :
  website_text_field w ≠ "" → password_text_field w ≠ "" →
  whitespace_only (website_text_field w) →
  whitespace_only (password_text_field w) →
  has_char "@" (email_text_field w) → has_char "." (email_text_field w) →
  store_invariant w →
  title (website_text_field w) = website_text_field w
  ∧ save_succeeds w
      (written (<[website_text_field w
                  := record (email_text_field w) (password_text_field w)]>
                (prior_store w)) w).
Proof.
  intros Hw Hp Hws _ Hat Hdot Hinv.
  assert (title (website_text_field w) = website_text_field w) as Hkey
    by by apply title_whitespace.
  split; [done|]. rewrite <- Hkey at 1. apply save_valid_store; [|done].
  repeat split; try done. intros He. rewrite He in Hat.
  by apply elem_of_nil in Hat.
Qed.

Lemma save_frame_witness :
  ∃ m', details_data
          (save (form "x" "a@b.com" "pw2"
                      (Some (Document (JObj two_sites))))).2
        = Some (Document (JObj m'))
        ∧ m' !! "X" = Some (record "a@b.com" "pw2")
        ∧ ∀ k, k ≠ "X" → m' !! k = two_sites !! k.
Proof.
  apply (save_frame
           (form "x" "a@b.com" "pw2" (Some (Document (JObj two_sites))))).
  split; reflexivity.
Defined.

Lemma save_self_heals_witness :
  save (form "x" "a@b.com" "pw" (Some (Malformed "{oops")))
  = (Ok tt, written {[ "X" := record "a@b.com" "pw" ]}
                    (form "x" "a@b.com" "pw" (Some (Malformed "{oops"))))
  ∧ save_succeeds
      (form "x" "a@b.com" "pw" (Some (Malformed "{oops")))
      (written {[ "X" := record "a@b.com" "pw" ]}
               (form "x" "a@b.com" "pw" (Some (Malformed "{oops")))).
Proof.
  apply (save_self_heals (form "x" "a@b.com" "pw" (Some (Malformed "{oops")))).
  - split_and!; [discriminate | discriminate | discriminate | |]; compute_done.
  - right. eexists. reflexivity.
Defined.

(** A file that cannot be read for another reason is not healed: the
    failure of the read is none of the two exceptions the handler of
    [save] names, so it leaves [save] on valid input; nothing is written
    and the entries keep their text. *)
Lemma save_unreadable w content why :
  valid_input w → details_data w = Some (Unreadable content why) →
  save w = (Raise (read_exn why), w).
Proof.
  intros Hvalid Hfile. rewrite save_valid by done. by rewrite Hfile.
Qed.

(** C8 fails on the code: with valid input and a file that is not UTF-8,
    [save] does not take the store for empty; it raises
    [UnicodeDecodeError], the file stays as it was and the three entries
    keep their text. *)
Theorem save_does_not_heal_undecodable :
  save (form "x" "a@b.com" "pw" (Some not_utf8_file))
  = (Raise UnicodeDecodeError, form "x" "a@b.com" "pw" (Some not_utf8_file))
  ∧ valid_input (form "x" "a@b.com" "pw" (Some not_utf8_file)).
Proof.
  assert (valid_input (form "x" "a@b.com" "pw" (Some not_utf8_file))) as Hvalid
    by (split_and!; [discriminate | discriminate | discriminate | |];
        compute_done).
  split; [|done]. by apply (save_unreadable _ (String "255"%char "") Not_utf8).
Qed.

Lemma save_accepts_whitespace_witness :
  title " " = " "
  ∧ save_succeeds (form " " "a@b.c" " " None)
      (written (<[" " := record "a@b.c" " "]> ∅) (form " " "a@b.c" " " None)).
Proof.
  apply (save_accepts_whitespace (form " " "a@b.c" " " None));
    [discriminate | discriminate | | | | | exact I]; compute_done.
Defined.

(** *** Reading *)

(** C2: after a successful [save], [find_password] for any website whose
    normalized key is that of the saved one shows the saved email and
    password, both unchanged, whatever else the form then holds; in
    particular saving [example.com] with [a@b.com] and [pw1] and then
    looking up [Example.Com] shows [a@b.com] and [pw1]. *)
Theorem save_then_find :
  (∀ (w w' w2 : world) (website' : string),
     save_succeeds w w' →
     title website' = title (website_text_field w) →
     details_data w2 = details_data w' →
     website_text_field w2 = website' →
     find_password w2
     = (Ok tt, after_dialog (Credential (title website')
                                        (JStr (email_text_field w))
                                        (JStr (password_text_field w))) w2))
  ∧ (∀ (w w2 : world),
       website_text_field w = "example.com" →
       email_text_field w = "a@b.com" →
       password_text_field w = "pw1" →
       store_invariant w →
       ∃ w', save_succeeds w w'
             ∧ (details_data w2 = details_data w' →
                website_text_field w2 = "Example.Com" →
                find_password w2
                = (Ok tt, after_dialog (Credential "Example.Com"
                                                   (JStr "a@b.com")
                                                   (JStr "pw1")) w2))).
Proof.
  assert (∀ (w w' w2 : world) (website' : string),
     save_succeeds w w' →
     title website' = title (website_text_field w) →
     details_data w2 = details_data w' →
     website_text_field w2 = website' →
     find_password w2
     = (Ok tt, after_dialog (Credential (title website')
                                        (JStr (email_text_field w))
                                        (JStr (password_text_field w))) w2))
    as Hgeneral.
  { intros w w' w2 website' [_ ->]%save_succeeds_inv Hkey Hfile <-.
    eapply find_record; [exact Hfile|].
    rewrite Hkey. apply lookup_insert_eq. }
  split; [exact Hgeneral|].
  intros w w2 Hw He Hp Hinv.
  assert (valid_input w) as Hvalid.
  { unfold valid_input. rewrite Hw, He, Hp.
    split_and!; [discriminate | discriminate | discriminate | |]; compute_done. }
  pose proof (save_valid_store w Hvalid Hinv) as Hsave.
  eexists. split; [exact Hsave|]. intros Hfile Hw2.
  rewrite <- He, <- Hp.
  apply (Hgeneral w _ w2 "Example.Com" Hsave); [|exact Hfile|exact Hw2].
  by rewrite Hw.
Qed.

Lemma save_then_find_witness :
  find_password
    (type_website "Example.Com" (save (form "example.com" "a@b.com" "pw1" None)).2)
  = (Ok tt,
     after_dialog (Credential "Example.Com" (JStr "a@b.com") (JStr "pw1"))
       (type_website "Example.Com"
          (save (form "example.com" "a@b.com" "pw1" None)).2)).
Proof.
  apply (proj1 save_then_find (form "example.com" "a@b.com" "pw1" None)
               (save (form "example.com" "a@b.com" "pw1" None)).2
               (type_website "Example.Com"
                  (save (form "example.com" "a@b.com" "pw1" None)).2)
               "Example.Com");
    [split; reflexivity | reflexivity | reflexivity | reflexivity].
Defined.

(** [find_password] shows a record only from a file that exists, parses
    and contains the normalized key. *)
Lemma find_succeeds_inv w :
  find_succeeds w →
  ∃ v, details_data w = Some (Document v)
       ∧ py_in (title (website_text_field w)) v = Ok true.
Proof.
  intros (email & password & Hrun).
  destruct (details_data w) as [[text|v|content why]|] eqn:Hfile.
  - by rewrite (find_malformed w text) in Hrun.
  - exists v. split; [done|]. revert Hrun.
    unfold find_password, mbind, M_bind, gets, try_except_else, load, lift.
    rewrite Hfile.
    destruct (py_in (title (website_text_field w)) v) as [[]|e]; [done| |done].
    simpl. intros Hrun. injection Hrun as Hrun.
    by apply app_inj_tail in Hrun as [_ ?].
  - by rewrite (find_unreadable w content why) in Hrun.
  - rewrite find_no_file in Hrun by done.
    injection Hrun as Hrun. by apply app_inj_tail in Hrun as [_ ?].
Qed.

(** C7: with no file, [find_password] shows the StoreMissing message and
    returns; with a file that holds a mapping without the normalized key,
    it shows the EntryNotFound message, which names the (normalized)
    website; it shows a record only when the file exists, parses and
    contains the normalized key, and, the parsed file being a store, it
    does so whenever that is the case. *)
Theorem find_outcomes (w : world) :
  let key := title (website_text_field w) in
  (details_data w = None →
   find_password w = (Ok tt, after_dialog StoreMissing w))
  ∧ (∀ m, details_data w = Some (Document (JObj m)) → m !! key = None →
          find_password w = (Ok tt, after_dialog (EntryNotFound key) w)
          ∧ EntryNotFound key = Info "Error" ("No details found for " +:+ key))
  ∧ (find_succeeds w →
     ∃ v, details_data w = Some (Document v) ∧ py_in key v = Ok true)
  ∧ (store_invariant w →
     (∃ v, details_data w = Some (Document v) ∧ py_in key v = Ok true) →
     find_succeeds w).
Proof.
  intros key. split_and!.
  - apply find_no_file.
  - intros m Hfile Hkey. split; [by apply (find_absent w m) | done].
  - apply find_succeeds_inv.
  - intros Hinv (v & Hfile & Hin). unfold store_invariant in Hinv.
    rewrite Hfile in Hinv. destruct Hinv as (m & -> & Hm). simpl in Hin.
    injection Hin as Hin. apply bool_decide_eq_true in Hin as [r Hkey].
    destruct (Hm _ _ Hkey) as (email & password & ->).
    exists (JStr email), (JStr password). by eapply find_record.
Qed.

Lemma find_outcomes_witness :
  find_password (form "anything" "" "" None)
  = (Ok tt, after_dialog StoreMissing (form "anything" "" "" None))
  ∧ find_password (form "nowhere" "" "" (Some (Document (JObj two_sites))))
    = (Ok tt, after_dialog (EntryNotFound "Nowhere")
                (form "nowhere" "" "" (Some (Document (JObj two_sites)))))
  ∧ find_succeeds (form "shop" "" "" (Some (Document (JObj two_sites)))).
Proof.
  split_and!.
  - apply (proj1 (find_outcomes (form "anything" "" "" None))). reflexivity.
  - refine (proj1 (proj1 (proj2 (find_outcomes
              (form "nowhere" "" "" (Some (Document (JObj two_sites))))))
              two_sites _ _)); reflexivity.
  - refine (proj2 (proj2 (proj2 (find_outcomes
              (form "shop" "" "" (Some (Document (JObj two_sites))))))) _ _).
    + exists two_sites. split; [reflexivity|].
      apply map_Forall_insert_2; [by eexists _, _|].
      apply map_Forall_singleton. by eexists _, _.
    + eexists. split; reflexivity.
Defined.

(** C9, as the code has it: when the file exists but cannot be read or
    parsed, [find_password] handles nothing: the error of the read leaves
    it as it was raised, whichever it is, no message is shown and the
    world is untouched.  When the error is the parser's [JSONDecodeError],
    [save] from the same file returns normally and, on valid input,
    replaces the file. *)
Theorem find_unreadable_propagates (w : world) :
  (∀ text, details_data w = Some (Malformed text) →
     find_password w = (Raise JSONDecodeError, w)
     ∧ (save w).1 = Ok tt
     ∧ (valid_input w →
        save w
        = (Ok tt,
           written {[ title (website_text_field w)
                      := record (email_text_field w) (password_text_field w) ]}
                   w)))
  ∧ (∀ content why, details_data w = Some (Unreadable content why) →
     find_password w = (Raise (read_exn why), w)).
Proof.
  split.
  - intros text Hfile. split_and!.
    + by eapply find_malformed.
    + destruct (decide (valid_input w)) as [Hvalid|Hbad].
      * rewrite save_valid by done. by rewrite Hfile.
      * by destruct (save_rejected w Hbad) as [-> | ->].
    + intros Hvalid. rewrite save_valid by done. by rewrite Hfile.
  - intros content why Hfile. by eapply find_unreadable.
Qed.

Lemma find_unreadable_propagates_witness :
  (find_password (form "x" "a@b.com" "pw" (Some (Malformed "{oops")))
   = (Raise JSONDecodeError, form "x" "a@b.com" "pw" (Some (Malformed "{oops")))
   ∧ (save (form "x" "a@b.com" "pw" (Some (Malformed "{oops")))).1 = Ok tt)
  ∧ find_password (form "x" "a@b.com" "pw" (Some not_utf8_file))
    = (Raise UnicodeDecodeError, form "x" "a@b.com" "pw" (Some not_utf8_file)).
Proof.
  split.
  - destruct (proj1 (find_unreadable_propagates
                       (form "x" "a@b.com" "pw" (Some (Malformed "{oops"))))
                    "{oops" eq_refl) as (Hfind & Hsave & _).
    exact (conj Hfind Hsave).
  - exact (proj2 (find_unreadable_propagates
                    (form "x" "a@b.com" "pw" (Some not_utf8_file)))
                 (String "255"%char "") Not_utf8 eq_refl).
Defined.

(** C9, as it is worded, fails: on a file that is not UTF-8 [save] is no
    more defensive than [find_password]; both end in the
    [UnicodeDecodeError] of the read. *)
Lemma find_and_save_both_raise :
  find_password (form "shop" "c@d.org" "pw9" (Some not_utf8_file))
  = (Raise UnicodeDecodeError, form "shop" "c@d.org" "pw9" (Some not_utf8_file))
  ∧ save (form "shop" "c@d.org" "pw9" (Some not_utf8_file))
    = (Raise UnicodeDecodeError, form "shop" "c@d.org" "pw9" (Some not_utf8_file))
  ∧ (save (form "shop" "c@d.org" "pw9" (Some not_utf8_file))).1 ≠ Ok tt.
Proof.
  assert (valid_input (form "shop" "c@d.org" "pw9" (Some not_utf8_file)))
    as Hvalid
    by (split_and!; [discriminate | discriminate | discriminate | |];
        compute_done).
  split_and!.
  - by apply (find_unreadable _ (String "255"%char "") Not_utf8).
  - by apply (save_unreadable _ (String "255"%char "") Not_utf8).
  - by rewrite (save_unreadable _ (String "255"%char "") Not_utf8).
Qed.

(** *** The normalized key *)

Lemma length_title_from b s : String.length (title_from b s) = String.length s.
Proof.
  revert b. induction s as [|c s IH]; intros b; simpl; [done|]. by rewrite IH.
Qed.

(** Character by character: position [0] is cased by the flag the pass
    starts with, every later position by the character before it. *)
Lemma get_title_from b s i c :
  String.get i s = Some c →
  String.get i (title_from b s)
  = Some (if match i with
             | 0 => negb b
             | S j => match String.get j s with
                      | Some p => negb (is_cased p)
                      | None => true
                      end
             end
          then upper c else lower c).
Proof.
  revert b i. induction s as [|a s IH]; intros b i Hget; [done|].
  destruct i as [|i]; simpl in *.
  - injection Hget as ->. by destruct b.
  - rewrite (IH _ _ Hget). by destruct i.
Qed.

Lemma cased_or_space c :
  is_cased c = true ∨ is_space c = true → is_space c = negb (is_cased c).
Proof.
  by destruct c as [[] [] [] [] [] [] [] []]; vm_compute; intros [?|?].
Qed.

(** On letters and whitespace the pass of [title] and the title case of
    the specification go together. *)
Lemma title_from_plain_words b s :
  plain_words s → title_from b s = spec_title_from (negb b) s.
Proof.
  unfold plain_words. revert b.
  induction s as [|c s IH]; intros b Hs; [done|].
  simpl in Hs. apply Forall_cons in Hs as [Hc Hs]. simpl.
  rewrite (cased_or_space c Hc), <- IH by done. by destruct b.
Qed.

(** C3, as the code has it: for a website written in ASCII, the key is
    the website in the title case of [str.title], where a word is a run of
    letters and any other character, not whitespace alone, ends it.  The
    key has the length of the website; a character is upper-cased when it
    is the first one or follows a non-letter, and lower-cased otherwise;
    on websites made of letters and whitespace this is the title case of
    whitespace-separated words; and [save] and [find_password] compute the
    same key: what was saved under a website is found under that
    website. *)
Theorem title_by_letter_runs :
  (∀ s, ascii_text s → String.length (title s) = String.length s)
  ∧ (∀ s, ascii_text s →
          ∀ i c, String.get i s = Some c →
                 String.get i (title s)
                 = Some (if starts_word s i then upper c else lower c))
  ∧ (∀ s, plain_words s → title s = spec_title s)
  ∧ (∀ w w', save_succeeds w w' →
             find_succeeds (type_website (website_text_field w) w')).
Proof.
  split_and!.
  - intros s _. apply length_title_from.
  - intros s _ i c Hget. unfold title. rewrite (get_title_from _ _ _ _ Hget).
    by destruct i.
  - intros s Hs. by apply (title_from_plain_words false).
  - intros w w' [_ ->]%save_succeeds_inv.
    exists (JStr (email_text_field w)), (JStr (password_text_field w)).
    eapply find_record; [done|]. apply lookup_insert_eq.
Qed.

Lemma title_by_letter_runs_witness :
  String.length (title "example.com") = 11
  ∧ String.get 8 (title "example.com") = Some "C"%char
  ∧ title "my bank" = spec_title "my bank"
  ∧ find_succeeds
      (type_website "example.com"
         (save (form "example.com" "a@b.com" "pw1" None)).2).
Proof.
  destruct title_by_letter_runs as (Hlen & Hget & Hplain & Hsame).
  assert (ascii_text "example.com") as Hascii by compute_done.
  split_and!.
  - exact (Hlen "example.com" Hascii).
  - exact (Hget "example.com" Hascii 8 "c"%char eq_refl).
  - apply (Hplain "my bank"). compute_done.
  - apply (Hsame (form "example.com" "a@b.com" "pw1" None)).
    split; reflexivity.
Defined.

(** C3, in the words of the specification, fails: [str.title] starts a new word after
    the dot of [example.com], the title case of whitespace-separated words
    does not; [save] files the record under [Example.Com], and there is no
    entry [Example.com]. *)
Lemma title_splits_at_dot :
  title "example.com" = "Example.Com"
  ∧ spec_title "example.com" = "Example.com"
  ∧ ¬ (∀ website, title website = spec_title website)
  ∧ ∃ m, details_data (save (form "example.com" "a@b.com" "pw1" None)).2
         = Some (Document (JObj m))
         ∧ m !! "Example.Com" = Some (record "a@b.com" "pw1")
         ∧ m !! spec_title "example.com" = None.
Proof.
  split_and!; [done | done | |].
  - intros Hall. by specialize (Hall "example.com").
  - eexists. split_and!; [reflexivity | |]; compute_done.
Qed.

(** *** Outside the data model

    What the two operations do with a file that parses to something that
    is not a store; no property above depends on it. *)

Example save_on_array_raises :
  save (form "x" "a@b.com" "pw" (Some (Document (JArr []))))
  = (Raise AttributeError, form "x" "a@b.com" "pw" (Some (Document (JArr [])))).
Proof. reflexivity. Qed.

Example find_on_non_record_raises :
  find_password (form "x" "" "" (Some (Document (JObj {[ "X" := JInt 5 ]}))))
  = (Raise TypeError,
     form "x" "" "" (Some (Document (JObj {[ "X" := JInt 5 ]})))).
Proof. reflexivity. Qed.

End StoreFacts.

(** ** Further properties of the store and of the window *)

Module AppFacts.
Import Password Store App.

(** *** Keys *)

(** Case mapping is a matter of the lower-cased character alone. *)
Lemma case_of_lower c :
  is_cased (lower c) = is_cased c ∧ lower (lower c) = lower c
  ∧ upper (lower c) = upper c.
Proof. by destruct c as [[] [] [] [] [] [] [] []]; vm_compute. Qed.

Lemma case_of_upper c :
  is_cased (upper c) = is_cased c ∧ lower (upper c) = lower c
  ∧ upper (upper c) = upper c.
Proof. by destruct c as [[] [] [] [] [] [] [] []]; vm_compute. Qed.

Lemma title_from_idempotent b s :
  title_from b (title_from b s) = title_from b s.
Proof.
  revert b. induction s as [|c s IH]; intros b; [done|]. simpl.
  destruct (case_of_lower c) as (Hlc & Hll & Hul).
  destruct (case_of_upper c) as (Huc & Hlu & Huu).
  destruct b; rewrite ?Hlc, ?Huc, ?Hll, ?Huu, IH; done.
Qed.

Lemma lower_str_title_from b s : lower_str (title_from b s) = lower_str s.
Proof.
  revert b. induction s as [|c s IH]; intros b; [done|]. simpl.
  destruct (case_of_lower c) as (_ & Hll & _).
  destruct (case_of_upper c) as (_ & Hlu & _).
  rewrite IH. by destruct b; rewrite ?Hll, ?Hlu.
Qed.

Lemma title_from_lower_str b s : title_from b (lower_str s) = title_from b s.
Proof.
  revert b. induction s as [|c s IH]; intros b; [done|]. simpl.
  destruct (case_of_lower c) as (Hlc & Hll & Hul).
  rewrite Hlc, IH. by destruct b; rewrite ?Hll, ?Hul.
Qed.

(** The case mappings keep ASCII characters ASCII. *)
Lemma ascii_case c :
  (nat_of_ascii c <? 128) = true →
  (nat_of_ascii (upper c) <? 128) = true
  ∧ (nat_of_ascii (lower c) <? 128) = true.
Proof. by destruct c as [[] [] [] [] [] [] [] []]; vm_compute. Qed.

Lemma ascii_text_title_from b s : ascii_text s → ascii_text (title_from b s).
Proof.
  unfold ascii_text. revert b.
  induction s as [|c s IH]; intros b Hs; [done|].
  simpl in *. apply Forall_cons in Hs as [Hc Hs].
  apply Nat.ltb_lt, ascii_case in Hc as [Hup Hlow].
  apply Forall_cons. split; [|by apply IH].
  apply Nat.ltb_lt. by destruct b.
Qed.

(** X1: for a website written in ASCII, normalizing a key twice is
    normalizing it once: a key as it is stored, or as a dialog shows it,
    is its own normalized key. *)
Theorem title_idempotent (s : string) :
  ascii_text s → title (title s) = title s.
Proof. intros _. apply title_from_idempotent. Qed.

Lemma title_idempotent_witness :
  title (title "my-bank.example") = title "my-bank.example".
Proof. apply (title_idempotent "my-bank.example"). compute_done. Defined.

(** X2: two websites written in ASCII have the same key exactly when they
    differ in the case of their letters only, that is, when [str.lower]
    sends them to the same string. *)
Theorem same_key_iff_same_lower (s1 s2 : string) :
  ascii_text s1 → ascii_text s2 →
  title s1 = title s2 ↔ lower_str s1 = lower_str s2.
Proof.
  intros _ _. unfold title. split; intros Heq.
  - rewrite <- (lower_str_title_from false s1), Heq.
    apply lower_str_title_from.
  - rewrite <- (title_from_lower_str false s1), Heq.
    apply title_from_lower_str.
Qed.

Lemma same_key_iff_same_lower_witness :
  title "EXAMPLE.com" = title "example.COM"
  ↔ lower_str "EXAMPLE.com" = lower_str "example.COM".
Proof.
  apply (same_key_iff_same_lower "EXAMPLE.com" "example.COM"); compute_done.
Defined.

(** *** Every outcome of [find_password] *)

Lemma not_store_other v : is_dict v = false → ¬ is_store v.
Proof. intros Hv (m & -> & _). done. Qed.

Lemma not_store_entry m k r :
  m !! k = Some r → ¬ is_credential r → ¬ is_store (JObj m).
Proof.
  intros Hk Hr (m' & [= <-] & Hm). apply Hr. by apply (Hm k).
Qed.

Lemma credential_fields r :
  is_credential (JObj r) → is_Some (r !! "email") ∧ is_Some (r !! "password").
Proof.
  intros (email & password & [= ->]). split.
  - rewrite lookup_insert_eq. by eexists.
  - rewrite lookup_insert_ne by done. rewrite lookup_singleton_eq. by eexists.
Qed.

(** The five ways [find_password] can end. *)
Lemma find_password_inv w :
  let key := title (website_text_field w) in
  (details_data w = None
   ∧ find_password w = (Ok tt, after_dialog StoreMissing w))
  ∨ (∃ v, details_data w = Some (Document v) ∧ py_in key v = Ok false
          ∧ find_password w = (Ok tt, after_dialog (EntryNotFound key) w))
  ∨ (∃ m r email password,
       details_data w = Some (Document (JObj m)) ∧ m !! key = Some (JObj r)
       ∧ r !! "email" = Some email ∧ r !! "password" = Some password
       ∧ find_password w
         = (Ok tt, after_dialog (Credential key email password) w))
  ∨ (∃ e, fails_to_load w e ∧ find_password w = (Raise e, w))
  ∨ (∃ v e, details_data w = Some (Document v) ∧ ¬ is_store v
            ∧ (e = TypeError ∨ e = KeyError)
            ∧ find_password w = (Raise e, w)).
Proof.
  intros key.
  destruct (details_data w) as [[text|v|content why]|] eqn:Hfile.
  - do 3 right. left. exists JSONDecodeError. split.
    + left. split; [done | by exists text].
    + by apply (StoreFacts.find_malformed w text).
  - assert (∀ e, py_in key v = Raise e → find_password w = (Raise e, w))
      as Hraise.
    { intros e He.
      unfold find_password, mbind, M_bind, gets, try_except_else, load, lift.
      rewrite Hfile. fold key. by rewrite He. }
    assert (py_in key v = Ok false →
            find_password w = (Ok tt, after_dialog (EntryNotFound key) w))
      as Hnone.
    { intros He.
      unfold find_password, mbind, M_bind, gets, try_except_else, load, lift.
      rewrite Hfile. fold key. by rewrite He. }
    assert (∀ e, py_in key v = Ok true → getitem v key = Raise e →
                 find_password w = (Raise e, w)) as Hitem.
    { intros e He Hget.
      unfold find_password, mbind, M_bind, gets, try_except_else, load, lift.
      rewrite Hfile. fold key. by rewrite He, Hget. }
    destruct v as [| b | n | lit | s | items | m].
    + do 4 right. exists JNull, TypeError.
      split_and!; [done | by apply not_store_other | by left | by apply Hraise].
    + do 4 right. exists (JBool b), TypeError.
      split_and!; [done | by apply not_store_other | by left | by apply Hraise].
    + do 4 right. exists (JInt n), TypeError.
      split_and!; [done | by apply not_store_other | by left | by apply Hraise].
    + do 4 right. exists (JFloat lit), TypeError.
      split_and!; [done | by apply not_store_other | by left | by apply Hraise].
    + destruct (py_in key (JStr s)) as [[]|e] eqn:Hin; [| |done].
      * do 4 right. exists (JStr s), TypeError.
        split_and!; [done | by apply not_store_other | by left | by apply Hitem].
      * right. left. exists (JStr s). split_and!; [done | done | by apply Hnone].
    + destruct (py_in key (JArr items)) as [[]|e] eqn:Hin; [| |done].
      * do 4 right. exists (JArr items), TypeError.
        split_and!; [done | by apply not_store_other | by left | by apply Hitem].
      * right. left. exists (JArr items).
        split_and!; [done | done | by apply Hnone].
    + destruct (m !! key) as [r|] eqn:Hkey; cycle 1.
      { right. left. exists (JObj m). split; [done|].
        assert (py_in key (JObj m) = Ok false) as Hin.
        { simpl. rewrite Hkey. rewrite bool_decide_eq_false_2; [done|].
          by intros [? ?]. }
        split; [done | by apply Hnone]. }
      destruct (decide (is_dict r = true)) as [Hdict|Hdict].
      * destruct r as [| | | | | |fields]; try done.
        destruct (fields !! "email") as [email|] eqn:Hemail;
          [destruct (fields !! "password") as [password|] eqn:Hpassword|].
        -- do 2 right. left. exists m, fields, email, password.
           split_and!; try done. by eapply StoreFacts.find_present.
        -- do 4 right. exists (JObj m), KeyError.
           split_and!; [done | | by right |].
           { eapply not_store_entry; [done|].
             intros [_ [? Hp]]%credential_fields. by rewrite Hpassword in Hp. }
           unfold find_password, mbind, M_bind, gets, try_except_else, load, lift.
           rewrite Hfile. fold key. simpl. rewrite Hkey.
           rewrite bool_decide_eq_true_2 by done. simpl.
           by rewrite Hemail, Hpassword.
        -- do 4 right. exists (JObj m), KeyError.
           split_and!; [done | | by right |].
           { eapply not_store_entry; [done|].
             intros [[? He] _]%credential_fields. by rewrite Hemail in He. }
           unfold find_password, mbind, M_bind, gets, try_except_else, load, lift.
           rewrite Hfile. fold key. simpl. rewrite Hkey.
           rewrite bool_decide_eq_true_2 by done. simpl.
           by rewrite Hemail.
      * do 4 right. exists (JObj m), TypeError.
        split_and!; [done | | by left |].
        { eapply not_store_entry; [done|].
          intros (email & password & ->). by apply Hdict. }
        unfold find_password, mbind, M_bind, gets, try_except_else, load, lift.
        rewrite Hfile. fold key. simpl. rewrite Hkey.
        rewrite bool_decide_eq_true_2 by done. simpl.
        by destruct r.
  - do 3 right. left. exists (read_exn why). split.
    + right. by exists content, why.
    + by apply (StoreFacts.find_unreadable w content why).
  - left. split; [done|]. by apply StoreFacts.find_no_file.
Qed.

Lemma after_dialog_inj d1 d2 w : after_dialog d1 w = after_dialog d2 w → d1 = d2.
Proof.
  intros H. apply (f_equal shown) in H. simpl in H.
  by apply app_inj_tail in H as [_ ?].
Qed.

Lemma same_form_and_file_refl w : same_form_and_file w w.
Proof. done. Qed.

Lemma same_form_and_file_dialog d w : same_form_and_file w (after_dialog d w).
Proof. done. Qed.

(** X3: [find_password] only reads.  Whatever the file holds, it ends in
    one of two ways: it returns after showing exactly one dialog, or it
    raises and leaves the world as it found it; either way the three
    entries and the file are untouched. *)
Theorem find_password_reads_only (w : world) :
  same_form_and_file w (find_password w).2
  ∧ ((∃ d, find_password w = (Ok tt, after_dialog d w))
     ∨ (∃ e, find_password w = (Raise e, w))).
Proof.
  destruct (find_password_inv w)
    as [[_ ->] | [(v & _ & _ & ->) | [(m & r & e & p & _ & _ & _ & _ & ->)
       | [(text & _ & ->) | (v & e & _ & _ & _ & ->)]]]]; simpl.
  - split; [apply same_form_and_file_dialog | left; by eexists].
  - split; [apply same_form_and_file_dialog | left; by eexists].
  - split; [apply same_form_and_file_dialog | left; by eexists].
  - split; [apply same_form_and_file_refl | right; by eexists].
  - split; [apply same_form_and_file_refl | right; by eexists].
Qed.

Lemma find_fails_to_load w e :
  fails_to_load w e → find_password w = (Raise e, w).
Proof.
  intros [[-> [text Hfile]] | (content & why & Hfile & ->)].
  - by apply (StoreFacts.find_malformed w text).
  - by apply (StoreFacts.find_unreadable w content why).
Qed.

Lemma healthy_loads w e : healthy w → ¬ fails_to_load w e.
Proof.
  unfold healthy.
  intros Hw [[_ [text Hfile]] | (content & why & Hfile & _)];
    by rewrite Hfile in Hw.
Qed.

(** X4: the exceptions of [find_password].  A failure to read the file
    leaves [find_password] as it was raised: [JSONDecodeError] for text
    the parser rejects, [UnicodeDecodeError], [ValueError] or
    [RecursionError] for content that is not UTF-8, holds an integer too
    long or nests too deep.  Beyond these it raises only [TypeError] or
    [KeyError], and only on a file that parses to something other than a
    store.  It raises nothing when the file is absent or holds a store. *)
Theorem find_password_raises (w : world) :
  (∀ e, (find_password w).1 = Raise e →
        fails_to_load w e
        ∨ ((e = TypeError ∨ e = KeyError)
           ∧ ∃ v, details_data w = Some (Document v) ∧ ¬ is_store v))
  ∧ (∀ e, fails_to_load w e → find_password w = (Raise e, w))
  ∧ (healthy w → (find_password w).1 = Ok tt).
Proof.
  split_and!.
  - intros e.
    destruct (find_password_inv w)
      as [[_ ->] | [(v & _ & _ & ->) | [(m & r & em & p & _ & _ & _ & _ & ->)
         | [(e' & Hfails & ->) | (v & e' & Hfile & Hv & He' & ->)]]]];
      simpl; try done.
    + intros [= <-]. by left.
    + intros [= <-]. right. split; [done | by exists v].
  - apply find_fails_to_load.
  - intros Hw.
    destruct (find_password_inv w)
      as [[_ ->] | [(v & _ & _ & ->) | [(m & r & em & p & _ & _ & _ & _ & ->)
         | [(e' & Hfails & ->) | (v & e' & Hfile & Hv & He' & ->)]]]];
      simpl; try done.
    + by apply healthy_loads in Hfails.
    + unfold healthy in Hw. by rewrite Hfile in Hw.
Qed.

Lemma find_password_raises_witness :
  (fails_to_load (form "x" "" "" (Some (Document (JObj {[ "X" := JObj ∅ ]}))))
                 KeyError
   ∨ ((KeyError = TypeError ∨ KeyError = KeyError)
      ∧ ∃ v, details_data
               (form "x" "" "" (Some (Document (JObj {[ "X" := JObj ∅ ]}))))
             = Some (Document v) ∧ ¬ is_store v))
  ∧ find_password (form "x" "" "" (Some not_utf8_file))
    = (Raise UnicodeDecodeError, form "x" "" "" (Some not_utf8_file))
  ∧ (find_password (form "shop" "" "" (Some (Document (JObj two_sites))))).1
    = Ok tt.
Proof.
  split_and!.
  - apply (proj1 (find_password_raises
             (form "x" "" "" (Some (Document (JObj {[ "X" := JObj ∅ ]})))))
             KeyError).
    reflexivity.
  - apply (proj1 (proj2 (find_password_raises
                           (form "x" "" "" (Some not_utf8_file))))).
    right. exists (String "255"%char ""), Not_utf8. by split.
  - apply (proj2 (proj2 (find_password_raises
             (form "shop" "" "" (Some (Document (JObj two_sites))))))).
    exists two_sites. split; [reflexivity|].
    apply map_Forall_insert_2; [by eexists _, _|].
    apply map_Forall_singleton. by eexists _, _.
Defined.

(** X5: [find_password] shows nothing that is not in the file.  If it
    shows a record under [k], then [k] is the normalized key of the
    website typed and the file is a mapping in which [k] holds a record
    with exactly that email and that password; and when the website typed
    is ASCII, [k] is ASCII and in title case, so that an entry filed under
    a key that is not in title case is shown for no ASCII input. *)
Theorem find_password_shows_stored (w : world) (k : string) (email password : json) :
  find_password w = (Ok tt, after_dialog (Credential k email password) w) →
  k = title (website_text_field w)
  ∧ (∃ m r, details_data w = Some (Document (JObj m))
            ∧ m !! k = Some (JObj r)
            ∧ r !! "email" = Some email ∧ r !! "password" = Some password)
  ∧ (ascii_text (website_text_field w) → ascii_text k ∧ title k = k).
Proof.
  intros Hrun.
  destruct (find_password_inv w)
    as [[_ Hf] | [(v & _ & _ & Hf) | [(m & r & e & p & Hfile & Hk & He & Hp & Hf)
       | [(e' & _ & Hf) | (v & e' & _ & _ & _ & Hf)]]]];
    rewrite Hf in Hrun; try done.
  - injection Hrun as Hrun. by apply app_inj_tail in Hrun as [_ ?].
  - injection Hrun as Hrun. by apply app_inj_tail in Hrun as [_ ?].
  - injection Hrun as Hrun. apply app_inj_tail in Hrun as [_ [= <- <- <-]].
    split_and!; [done | by exists m, r |].
    intros Hascii. split; [by apply ascii_text_title_from|].
    apply title_from_idempotent.
Qed.

Lemma find_password_shows_stored_witness :
  "Shop" = title "shop"
  ∧ (∃ m r, Some (Document (JObj two_sites)) = Some (Document (JObj m))
            ∧ m !! "Shop" = Some (JObj r)
            ∧ r !! "email" = Some (JStr "c@d.org")
            ∧ r !! "password" = Some (JStr "pw9"))
  ∧ ascii_text "Shop" ∧ title "Shop" = "Shop".
Proof.
  destruct (find_password_shows_stored
              (form "shop" "" "" (Some (Document (JObj two_sites))))
              "Shop" (JStr "c@d.org") (JStr "pw9") eq_refl)
    as (Hkey & Hstored & Hascii).
  refine (conj Hkey (conj Hstored (Hascii _))). compute_done.
Defined.

(** *** Every outcome of [save] *)

(** X6: the exceptions of [save].  It raises exactly when the input is
    valid and either reading the file fails otherwise than with the
    parser's [JSONDecodeError] (the failure, [UnicodeDecodeError],
    [ValueError] or [RecursionError], is passed on), or the file parses
    to something that is not a mapping ([AttributeError], raised by
    [update]).  Either way the exception comes before anything is
    written, so the world is left as it was: the file is not touched and
    the entries keep their text. *)
Theorem save_raises (w : world) (e : exn) :
  ((save w).1 = Raise e
   ↔ valid_input w
     ∧ ((∃ content why,
           details_data w = Some (Unreadable content why) ∧ e = read_exn why)
        ∨ (e = AttributeError
           ∧ ∃ v, details_data w = Some (Document v) ∧ is_dict v = false)))
  ∧ ((save w).1 = Raise e → (save w).2 = w).
Proof.
  destruct (decide (valid_input w)) as [Hvalid|Hbad].
  - rewrite StoreFacts.save_valid by done.
    destruct (details_data w) as [[text|v|content why]|] eqn:Hfile; simpl.
    + split; [|done]. split; [done|].
      by intros (_ & [(? & ? & ? & _) | (_ & ? & ? & _)]).
    + destruct v; simpl;
        try (split; [|done]; split;
             [intros [= <-]; split; [done|]; right; split; [done | by eexists]
             | by intros (_ & [(? & ? & ? & _) | (-> & _)])]).
      split; [|done]. split; [done|].
      intros (_ & [(? & ? & ? & _) | (_ & ? & [= <-] & ?)]); done.
    + split; [|done]. split.
      * intros [= <-]. split; [done|]. left. by exists content, why.
      * by intros (_ & [(? & ? & [= _ <-] & ->) | (_ & ? & ? & _)]).
    + split; [|done]. split; [done|].
      by intros (_ & [(? & ? & ? & _) | (_ & ? & ? & _)]).
  - destruct (StoreFacts.save_rejected w Hbad) as [-> | ->]; simpl;
      (split; [|done]; split; [done | by intros (? & _)]).
Qed.

Lemma save_raises_witness :
  (save (form "x" "a@b.com" "pw" (Some (Document (JArr []))))).2
  = form "x" "a@b.com" "pw" (Some (Document (JArr [])))
  ∧ (save (form "x" "a@b.com" "pw" (Some not_utf8_file))).1
    = Raise UnicodeDecodeError.
Proof.
  split.
  - apply (proj2 (save_raises (form "x" "a@b.com" "pw" (Some (Document (JArr []))))
                              AttributeError)).
    reflexivity.
  - apply (proj1 (save_raises (form "x" "a@b.com" "pw" (Some not_utf8_file))
                              UnicodeDecodeError)).
    split.
    + split_and!; [discriminate | discriminate | discriminate | |]; compute_done.
    + left. exists (String "255"%char ""), Not_utf8. by split.
Defined.

(** *** Saving more than once *)

Lemma prior_store_written m w : prior_store (written m w) = m.
Proof. done. Qed.

Lemma prior_store_fill website email password w :
  prior_store (fill website email password w) = prior_store w.
Proof. done. Qed.

(** What the second of two successful saves leaves. *)
Lemma second_save w w1 website email password w2 :
  save_succeeds w w1 →
  save_succeeds (fill website email password w1) w2 →
  w2 = written
         (<[title website := record email password]>
            (<[title (website_text_field w)
               := record (email_text_field w) (password_text_field w)]>
             (prior_store w)))
         w.
Proof.
  intros [_ ->]%StoreFacts.save_succeeds_inv [_ ->]%StoreFacts.save_succeeds_inv.
  done.
Qed.

(** X7: two successful saves in a row.  The file ends with both records,
    each under its key, laid over the mapping held before the first: if
    the two keys differ both entries are there, and if they are the same
    the second record has replaced the first without a trace, the file
    being the one the second save alone would have left. *)
Theorem save_twice (w w1 w2 : world) (website email password : string) :
  save_succeeds w w1 →
  save_succeeds (fill website email password w1) w2 →
  let k1 := title (website_text_field w) in
  let r1 := record (email_text_field w) (password_text_field w) in
  let k2 := title website in
  let r2 := record email password in
  prior_store w2 = <[k2 := r2]> (<[k1 := r1]> (prior_store w))
  ∧ (k1 ≠ k2 → prior_store w2 !! k1 = Some r1 ∧ prior_store w2 !! k2 = Some r2)
  ∧ (k1 = k2 → prior_store w2 = <[k2 := r2]> (prior_store w)).
Proof.
  intros Hfirst Hsecond k1 r1 k2 r2.
  rewrite (second_save _ _ _ _ _ _ Hfirst Hsecond), prior_store_written.
  fold k1 r1 k2 r2. split_and!.
  - done.
  - intros Hne. rewrite lookup_insert_ne by done.
    by rewrite !lookup_insert_eq.
  - intros ->. apply insert_insert_eq.
Qed.

Lemma save_twice_witness :
  prior_store saved_twice
  = <["X" := record "a@b.com" "pw2"]> (<["X" := record "a@b.com" "pw1"]> ∅)
  ∧ prior_store saved_twice = <["X" := record "a@b.com" "pw2"]> ∅.
Proof.
  destruct (save_twice (form "x" "a@b.com" "pw1" None)
                       (save (form "x" "a@b.com" "pw1" None)).2
                       saved_twice "X" "a@b.com" "pw2")
    as (Hboth & _ & Hsame); [split; reflexivity | split; reflexivity |].
  exact (conj Hboth (Hsame eq_refl)).
Defined.

(** X8: saves under different keys commute: entering two entries with
    different keys in one order or in the other leaves the same world,
    and so the same file. *)
Theorem saves_commute (w wa wab wb wba : world)
    (sa ea pa sb eb pb : string) :
  title sa ≠ title sb →
  save_succeeds (fill sa ea pa w) wa → save_succeeds (fill sb eb pb wa) wab →
  save_succeeds (fill sb eb pb w) wb → save_succeeds (fill sa ea pa wb) wba →
  wab = wba.
Proof.
  intros Hne Ha Hab Hb Hba.
  rewrite (second_save _ _ _ _ _ _ Ha Hab), (second_save _ _ _ _ _ _ Hb Hba).
  simpl. rewrite !prior_store_fill. unfold written. simpl.
  by rewrite insert_insert_ne.
Qed.

Lemma saves_commute_witness :
  (save (fill "b" "c@d.e" "q" (save (fill "a" "a@b.c" "p" (form "" "" "" None))).2)).2
  = (save (fill "a" "a@b.c" "p" (save (fill "b" "c@d.e" "q" (form "" "" "" None))).2)).2.
Proof.
  apply (saves_commute (form "" "" "" None)
           (save (fill "a" "a@b.c" "p" (form "" "" "" None))).2
           (save (fill "b" "c@d.e" "q"
                       (save (fill "a" "a@b.c" "p" (form "" "" "" None))).2)).2
           (save (fill "b" "c@d.e" "q" (form "" "" "" None))).2
           (save (fill "a" "a@b.c" "p"
                       (save (fill "b" "c@d.e" "q" (form "" "" "" None))).2)).2
           "a" "a@b.c" "p" "b" "c@d.e" "q");
    [discriminate | split; reflexivity ..].
Defined.

(** X9: a successful [save] empties the form, so pressing the button again
    without typing is rejected with the EmptyField message and writes
    nothing. *)
Theorem save_again_is_rejected (w w' : world) :
  save_succeeds w w' →
  save w' = (Ok tt, after_dialog EmptyField w')
  ∧ details_data (save w').2 = details_data w'.
Proof.
  intros [_ ->]%StoreFacts.save_succeeds_inv.
  by rewrite StoreFacts.save_empty_field by (by left).
Qed.

Lemma save_again_is_rejected_witness :
  save (save (form "x" "a@b.com" "pw" None)).2
  = (Ok tt, after_dialog EmptyField (save (form "x" "a@b.com" "pw" None)).2)
  ∧ details_data (save (save (form "x" "a@b.com" "pw" None)).2).2
    = details_data (save (form "x" "a@b.com" "pw" None)).2.
Proof.
  apply (save_again_is_rejected (form "x" "a@b.com" "pw" None)).
  split; reflexivity.
Defined.

(** *** The generator button *)

Lemma append_empty_r s : s +:+ "" = s.
Proof.
  induction s as [|c s IH]; [done|].
  change (String c (s +:+ "") = String c s). by rewrite IH.
Qed.

Lemma entry_insert_empty s : entry_insert 0 s "" = s.
Proof. change (s +:+ "" = s). apply append_empty_r. Qed.

(** What [generate] returns, for the button: a password of 12 to 20
    characters of the three pools. *)
Lemma generate_password g :
  ∃ pw g', generate g = (Ok pw, g')
           ∧ 12 ≤ String.length pw ≤ 20
           ∧ Forall (λ c, c ∈ letters ∨ c ∈ numbers ∨ c ∈ symbols)
                    (String.list_ascii_of_string pw).
Proof.
  destruct (returns_eq _ _ _ (PasswordFacts.generate_returns g))
    as (pw & g' & Hrun & ls & ss & ns & pl & -> & Hperm
        & Hls & Hlsp & Hss & Hssp & Hns & Hnsp).
  exists (String.string_of_list_ascii pl), g'. split; [done|].
  rewrite PasswordFacts.length_string_of_list_ascii,
    String.list_ascii_of_string_of_list_ascii, Hperm, !length_app.
  split; [lia|]. rewrite !Forall_app.
  split_and!; (eapply Forall_impl; [eassumption|]); simpl; tauto.
Qed.

Lemma password_generator_run a pw g' :
  generate (random a) = (Ok pw, g') →
  password_generator_for_entry a
  = (Ok tt, {| ui := type_password pw (ui a); random := g';
               clipboard := Some pw |}).
Proof.
  intros Hgen.
  unfold password_generator_for_entry, mbind, M_bind, on_random, on_ui,
    pyperclip_copy.
  rewrite Hgen. simpl. unfold type_password. simpl.
  by rewrite entry_insert_empty.
Qed.

(** X10: the generator button never fails.  It draws one password with
    [generate], replaces whatever the password entry held by it and puts
    the same text on the clipboard; the website and email entries, the
    file and the dialogs are as before, and the password has 12 to 20
    characters, all from the three pools. *)
Theorem generator_fills_entry (a : app) :
  ∃ pw g',
    generate (random a) = (Ok pw, g')
    ∧ password_generator_for_entry a
      = (Ok tt, {| ui := type_password pw (ui a); random := g';
                   clipboard := Some pw |})
    ∧ 12 ≤ String.length pw ≤ 20
    ∧ Forall (λ c, c ∈ letters ∨ c ∈ numbers ∨ c ∈ symbols)
             (String.list_ascii_of_string pw).
Proof.
  destruct (generate_password (random a)) as (pw & g' & Hgen & Hlen & Hpool).
  exists pw, g'.
  split_and!; [done | by apply password_generator_run | lia | lia | done].
Qed.

(** *** Sessions *)

Lemma handle_type_website text a :
  handle (Type_website text) a
  = (Ok tt, {| ui := type_website text (ui a); random := random a;
               clipboard := clipboard a |}).
Proof. done. Qed.

Lemma handle_search a :
  handle Click_search a
  = ((find_password (ui a)).1,
     {| ui := (find_password (ui a)).2; random := random a;
        clipboard := clipboard a |}).
Proof. simpl. unfold on_ui. by destruct (find_password (ui a)). Qed.

Lemma handle_add a :
  handle Click_add a
  = ((save (ui a)).1,
     {| ui := (save (ui a)).2; random := random a; clipboard := clipboard a |}).
Proof. simpl. unfold on_ui. by destruct (save (ui a)). Qed.

(** Only the Add button can change the file. *)
Lemma handle_file e a :
  details_data (ui (handle e a).2) = details_data (ui a)
  ∨ (e = Click_add ∧ ui (handle e a).2 = (save (ui a)).2).
Proof.
  destruct e; try (by left).
  - left. rewrite handle_search. simpl.
    by destruct (find_password_inv (ui a))
      as [[_ ->] | [(v & _ & _ & ->) | [(m & r & em & p & _ & _ & _ & _ & ->)
         | [(text & _ & ->) | (v & e' & _ & _ & _ & ->)]]]].
  - left. simpl.
    destruct (generate_password (random a)) as (pw & g' & Hgen & _).
    by rewrite (password_generator_run a pw g').
  - right. by rewrite handle_add.
Qed.

(** A property of the file that [save] keeps is kept by a whole session. *)
Lemma mainloop_file_invariant (P : world → Prop) :
  (∀ w w', details_data w' = details_data w → P w → P w') →
  (∀ w, P w → P (save w).2) →
  ∀ events a, P (ui a) → P (ui (mainloop events a).2).
Proof.
  intros Hfile Hsave events.
  induction events as [|e events IH]; intros a Ha; [done|].
  simpl. destruct (handle e a) as [r a'] eqn:Hstep.
  specialize (IH a'). destruct (mainloop events a') as [reported a''].
  simpl in *. apply IH.
  destruct (handle_file e a) as [Hsame | [_ Hadd]]; rewrite Hstep in *; simpl in *.
  - by eapply Hfile.
  - rewrite Hadd. by apply Hsave.
Qed.

Lemma healthy_store_invariant w : healthy w → store_invariant w.
Proof. unfold healthy, store_invariant. by destruct (details_data w) as [[]|]. Qed.

Lemma save_healthy w : healthy w → (save w).1 = Ok tt ∧ healthy (save w).2.
Proof.
  intros Hw. pose proof (healthy_store_invariant w Hw) as Hinv.
  destruct (decide (valid_input w)) as [Hvalid|Hbad].
  - pose proof (StoreFacts.save_keeps_invariant w Hinv) as Hkeeps.
    destruct (StoreFacts.save_valid_store w Hvalid Hinv) as [Hrun _].
    rewrite Hrun in *. done.
  - by destruct (StoreFacts.save_rejected w Hbad) as [-> | ->].
Qed.

Lemma find_healthy w : healthy w → (find_password w).1 = Ok tt.
Proof.
  intros Hw.
  destruct (find_password_inv w)
    as [[_ ->] | [(v & _ & _ & ->) | [(m & r & em & p & _ & _ & _ & _ & ->)
       | [(e' & Hfails & ->) | (v & e' & Hfile & Hv & He' & ->)]]]];
    simpl; try done.
  - by apply healthy_loads in Hfails.
  - unfold healthy in Hw. by rewrite Hfile in Hw.
Qed.

Lemma handle_healthy e a :
  healthy (ui a) → (handle e a).1 = Ok tt ∧ healthy (ui (handle e a).2).
Proof.
  intros Ha. destruct e; try done.
  - rewrite handle_search. simpl. split; [by apply find_healthy|].
    unfold healthy in *.
    destruct (handle_file Click_search a) as [Hsame | [? _]]; [|done].
    rewrite handle_search in Hsame. simpl in Hsame. by rewrite Hsame.
  - simpl. destruct (generate_password (random a)) as (pw & g' & Hgen & _).
    by rewrite (password_generator_run a pw g').
  - rewrite handle_add. simpl. by apply save_healthy.
Qed.

(** X11: a session that starts with no file, or with a file that holds a
    store, never sees an exception, whatever the user types and presses,
    and ends with no file or with a file that holds a store. *)
Theorem healthy_session (events : list event) (a : app) :
  healthy (ui a) →
  (mainloop events a).1 = [] ∧ healthy (ui (mainloop events a).2).
Proof.
  revert a. induction events as [|e events IH]; intros a Ha; [done|].
  simpl. destruct (handle_healthy e a Ha) as [Hok Ha'].
  destruct (handle e a) as [r a']. simpl in *. subst r.
  specialize (IH a' Ha'). by destruct (mainloop events a').
Qed.

Lemma healthy_session_witness :
  (mainloop [Click_search; Type_website "x"; Type_email "a@b.com";
             Click_generate; Click_add; Type_website "X"; Click_search;
             Click_add]
            (start None {| tape := λ n, n * 7 + 3; cursor := 0 |})).1 = []
  ∧ healthy
      (ui (mainloop [Click_search; Type_website "x"; Type_email "a@b.com";
                     Click_generate; Click_add; Type_website "X"; Click_search;
                     Click_add]
                    (start None {| tape := λ n, n * 7 + 3; cursor := 0 |})).2).
Proof.
  apply (healthy_session _ (start None {| tape := λ n, n * 7 + 3; cursor := 0 |})).
  exact I.
Defined.

(** X12: a generated password can be stored and read back.  With a
    website typed in, an email that has its [@] and [.], and a file that
    is absent, malformed or a store, pressing Generate, then Add, then
    typing the website again and pressing Search raises nothing and ends
    with the generated password on the clipboard, in the file under the
    normalized key, and in the dialog that Search shows. *)
Theorem generated_password_round_trip (a : app) :
  let website := website_text_field (ui a) in
  let email := email_text_field (ui a) in
  website ≠ "" → has_char "@" email → has_char "." email →
  store_invariant (ui a) →
  ∃ pw g',
    generate (random a) = (Ok pw, g')
    ∧ mainloop [Click_generate; Click_add; Type_website website; Click_search] a
      = ([], {| ui := after_dialog
                        (Credential (title website) (JStr email) (JStr pw))
                        (type_website website
                           (written (<[title website := record email pw]>
                                       (prior_store (ui a))) (ui a)));
                random := g';
                clipboard := Some pw |}).
Proof.
  intros website email Hw Hat Hdot Hinv.
  destruct (generate_password (random a)) as (pw & g' & Hgen & Hlen & _).
  exists pw, g'. split; [done|].
  assert (save_succeeds (type_password pw (ui a))
            (written (<[title website := record email pw]> (prior_store (ui a)))
                     (ui a))) as [Hsave _].
  { apply (StoreFacts.save_valid_store (type_password pw (ui a))); [|done].
    split_and!; try done.
    - intros He. unfold email in Hat. simpl in He. rewrite He in Hat.
      by apply elem_of_nil in Hat.
    - simpl. intros ->. simpl in Hlen. lia. }
  cbn [mainloop].
  change (handle Click_generate a) with (password_generator_for_entry a).
  rewrite (password_generator_run a pw g' Hgen), handle_add.
  cbn [ui random clipboard]. rewrite Hsave. cbn [fst snd].
  rewrite handle_type_website, handle_search. cbn [ui random clipboard].
  rewrite (StoreFacts.find_record _
             (<[title website := record email pw]> (prior_store (ui a)))
             email pw); [done | done |].
  apply lookup_insert_eq.
Qed.

Lemma generated_password_round_trip_witness :
  ∃ pw g',
    generate {| tape := λ n, n * 7 + 3; cursor := 0 |} = (Ok pw, g')
    ∧ mainloop [Click_generate; Click_add; Type_website "x"; Click_search]
        {| ui := form "x" "a@b.com" "" None;
           random := {| tape := λ n, n * 7 + 3; cursor := 0 |};
           clipboard := None |}
      = ([], {| ui := after_dialog
                        (Credential "X" (JStr "a@b.com") (JStr pw))
                        (type_website "x"
                           (written (<["X" := record "a@b.com" pw]> ∅)
                                    (form "x" "a@b.com" "" None)));
                random := g';
                clipboard := Some pw |}).
Proof.
  apply (generated_password_round_trip
           {| ui := form "x" "a@b.com" "" None;
              random := {| tape := λ n, n * 7 + 3; cursor := 0 |};
              clipboard := None |});
    [discriminate | compute_done | compute_done | exact I].
Defined.

Lemma save_file_cases w :
  details_data (save w).2 = details_data w
  ∨ ∃ r, details_data (save w).2
         = Some (Document (JObj (<[title (website_text_field w) := r]>
                                   (prior_store w)))).
Proof.
  destruct (decide (valid_input w)) as [Hvalid|Hbad].
  - rewrite StoreFacts.save_valid by done. unfold prior_store.
    destruct (details_data w) as [[text|v|content why]|] eqn:Hfile; simpl.
    + right. exists (record (email_text_field w) (password_text_field w)).
      reflexivity.
    + destruct v; try (by left). right. eexists. reflexivity.
    + by left.
    + right. exists (record (email_text_field w) (password_text_field w)).
      reflexivity.
  - left. by destruct (StoreFacts.save_rejected w Hbad) as [-> | ->].
Qed.

Lemma prior_store_same_file w w' :
  details_data w' = details_data w → prior_store w' = prior_store w.
Proof. unfold prior_store. by intros ->. Qed.

(** X13: nothing the user does removes an entry or the file: after any
    session every key the file held is still a key of the file, and a
    file that existed still exists. *)
Theorem session_keeps_keys (events : list event) (a : app) :
  dom (prior_store (ui a)) ⊆ dom (prior_store (ui (mainloop events a).2))
  ∧ (is_Some (details_data (ui a)) →
     is_Some (details_data (ui (mainloop events a).2))).
Proof.
  split.
  - apply (mainloop_file_invariant
             (λ w, dom (prior_store (ui a)) ⊆ dom (prior_store w))); [| |done].
    + intros w w' Hfile. by rewrite (prior_store_same_file w w').
    + intros w Hsub. destruct (save_file_cases w) as [Hsame | [r Hnew]].
      * by rewrite (prior_store_same_file w (save w).2).
      * unfold prior_store at 2. rewrite Hnew. rewrite dom_insert_L.
        set_solver.
  - apply (mainloop_file_invariant (λ w, is_Some (details_data w))).
    + by intros w w' ->.
    + intros w Hsome. destruct (save_file_cases w) as [-> | [r ->]]; [done|].
      by eexists.
Qed.

Lemma session_keeps_keys_witness :
  is_Some (details_data
             (ui (mainloop [Type_website "x"; Click_add; Click_search]
                           (start (Some (Malformed "{oops"))
                                  {| tape := λ n, n; cursor := 0 |})).2)).
Proof.
  apply (proj2 (session_keeps_keys
                  [Type_website "x"; Click_add; Click_search]
                  (start (Some (Malformed "{oops"))
                         {| tape := λ n, n; cursor := 0 |}))).
  by eexists.
Defined.

Lemma save_keys_normalized w :
  ascii_text (website_text_field w) →
  keys_normalized w → keys_normalized (save w).2.
Proof.
  unfold keys_normalized. intros Hascii Hw k.
  destruct (save_file_cases w) as [Hsame | [r Hnew]].
  - rewrite (prior_store_same_file w (save w).2) by done. apply Hw.
  - unfold prior_store at 1. rewrite Hnew.
    destruct (decide (title (website_text_field w) = k)) as [<- | Hne].
    + intros _. split; [by apply ascii_text_title_from|].
      apply title_from_idempotent.
    + rewrite lookup_insert_ne by done. apply Hw.
Qed.

Lemma save_website_field w :
  website_text_field (save w).2 = ""
  ∨ website_text_field (save w).2 = website_text_field w.
Proof.
  destruct (decide (valid_input w)) as [Hvalid|Hbad].
  - rewrite StoreFacts.save_valid by done.
    destruct (details_data w) as [[text|[]|content why]|]; simpl; tauto.
  - right. by destruct (StoreFacts.save_rejected w Hbad) as [-> | ->].
Qed.

Lemma find_password_world w :
  (find_password w).2 = w ∨ ∃ d, (find_password w).2 = after_dialog d w.
Proof.
  destruct (find_password_inv w)
    as [[_ ->] | [(v & _ & _ & ->) | [(m & r & em & p & _ & _ & _ & _ & ->)
       | [(e' & _ & ->) | (v & e' & _ & _ & _ & ->)]]]]; simpl;
    first [by left | right; by eexists].
Qed.

(** What a session of ASCII websites keeps: the file absent or a store,
    its keys ASCII and in title case, the website entry ASCII. *)
Lemma handle_keeps_normalized e a :
  ascii_typing e →
  healthy (ui a) ∧ keys_normalized (ui a)
  ∧ ascii_text (website_text_field (ui a)) →
  healthy (ui (handle e a).2) ∧ keys_normalized (ui (handle e a).2)
  ∧ ascii_text (website_text_field (ui (handle e a).2)).
Proof.
  intros He (Hh & Hk & Hw). destruct e; try done.
  - rewrite handle_search. simpl.
    by destruct (find_password_world (ui a)) as [-> | [d ->]].
  - simpl. destruct (generate_password (random a)) as (pw & g' & Hgen & _).
    by rewrite (password_generator_run a pw g').
  - rewrite handle_add. simpl. split_and!.
    + by apply save_healthy.
    + by apply save_keys_normalized.
    + destruct (save_website_field (ui a)) as [-> | ->]; [|done].
      apply Forall_nil_2.
Qed.

Lemma mainloop_invariant (Inv : app → Prop) (P : event → Prop) :
  (∀ e a, P e → Inv a → Inv (handle e a).2) →
  ∀ events a, Forall P events → Inv a → Inv (mainloop events a).2.
Proof.
  intros Hstep events.
  induction events as [|e events IH]; intros a Hevents Ha; [done|].
  apply Forall_cons in Hevents as [He Hevents].
  simpl. pose proof (Hstep e a He Ha) as Ha'.
  destruct (handle e a) as [r a']. specialize (IH a' Hevents Ha').
  by destruct (mainloop events a').
Qed.

(** X14: no entry is lost to a user who writes websites in ASCII.  In a
    session that starts with no file, or with a store whose keys are
    ASCII and in title case, and in which every website typed is ASCII,
    every key of the file stays ASCII and in title case, and every entry
    of the file can be read back: typing its key and pressing Search
    shows its email and its password. *)
Theorem stored_entries_retrievable (events : list event) (a : app) :
  healthy (ui a) → keys_normalized (ui a) →
  ascii_text (website_text_field (ui a)) → Forall ascii_typing events →
  let w' := ui (mainloop events a).2 in
  ∀ k r, prior_store w' !! k = Some r →
    (ascii_text k ∧ title k = k)
    ∧ ∃ email password,
        r = record email password
        ∧ find_password (type_website k w')
          = (Ok tt, after_dialog (Credential k (JStr email) (JStr password))
                                 (type_website k w')).
Proof.
  intros Hhealthy Hkeys Hwebsite Hevents w' k r Hk.
  destruct (mainloop_invariant
              (λ a, healthy (ui a) ∧ keys_normalized (ui a)
                    ∧ ascii_text (website_text_field (ui a)))
              ascii_typing handle_keeps_normalized events a Hevents)
    as (Hh' & Hk' & _); [done|]. fold w' in Hh', Hk'.
  assert (ascii_text k ∧ title k = k) as [Hascii Htitle]
    by (apply Hk'; by eexists).
  split; [done|].
  unfold healthy in Hh'. unfold prior_store in Hk.
  destruct (details_data w') as [[text|v|content why]|] eqn:Hfile; try done.
  destruct Hh' as (m & -> & Hm).
  destruct (Hm k r Hk) as (email & password & ->).
  exists email, password. split; [done|].
  rewrite <- Htitle at 2.
  apply (StoreFacts.find_record (type_website k w') m); [done|].
  simpl. by rewrite Htitle.
Qed.

Lemma stored_entries_retrievable_witness :
  (ascii_text "My Bank" ∧ title "My Bank" = "My Bank")
  ∧ ∃ email password,
      record "a@b.com" "pw" = record email password
      ∧ find_password (type_website "My Bank" (ui bank_session))
        = (Ok tt, after_dialog (Credential "My Bank" (JStr email) (JStr password))
                               (type_website "My Bank" (ui bank_session))).
Proof.
  apply (stored_entries_retrievable
           [Type_website "my bank"; Type_email "a@b.com";
            Type_password "pw"; Click_add]
           (start None {| tape := λ n, n; cursor := 0 |})
           I (λ k H, match is_Some_None H with end)
           (Forall_nil_2 _)
           ltac:(repeat constructor; compute_done)
           "My Bank" (record "a@b.com" "pw")).
  reflexivity.
Defined.

End AppFacts.
